(** * Snapcast media-player adapter: a shallow embedding and its properties

    The development follows
    [homeassistant/components/snapcast/media_player.py].  Python values,
    exceptions and dictionaries are modelled first, then the objects of the
    control library the adapter talks to, then the adapter itself, and last
    the properties. *)

From Stdlib Require Import ZArith QArith Qround Lqa Lia.
From stdpp Require Import base gmap strings list fin_maps sets pretty.

Local Open Scope Z_scope.
Local Open Scope string_scope.

(** ** Python values and exceptions *)

(** A JSON-like Python value, as the server delivers it inside the
    [metadata] and [properties] dictionaries of a stream. *)
#[warnings="-register-all"]
Inductive Value : Type :=
| VNone
| VBool (b : bool)
| VInt (n : Z)
| VFloat (q : Q)
| VStr (s : string)
| VList (l : list Value)
| VDict (d : list (string * Value)).

(** The exceptions that occur in the modelled code. *)
Inductive exn : Type :=
| IndexError
| TypeError
| KeyError
| NotFound
| InvalidArgument
| InvalidState
| Invalid
| ServiceNotFound.

(** Result of evaluating a Python expression: a value or a raised exception. *)
Inductive pyresult (A : Type) : Type :=
| Ok (a : A)
| Raise (e : exn).
Arguments Ok {A} a.
Arguments Raise {A} e.

(** [x is not None] *)
Definition is_not_None (v : Value) : bool :=
  match v with
  | VNone => false
  | _ => true
  end.

(** [int(b)] for a [bool] argument. *)
Definition int_of_bool (b : bool) : Z := if b then 1 else 0.

(** [v[0]]: subscripting with the integer [0]. *)
Definition subscript0 (v : Value) : pyresult Value :=
  match v with
  | VList (x :: _) => Ok x
  | VList [] => Raise IndexError
  | VStr (String a _) => Ok (VStr (String a EmptyString))
  | VStr EmptyString => Raise IndexError
  | VDict _ => Raise KeyError
  | VNone | VBool _ | VInt _ | VFloat _ => Raise TypeError
  end.

(** Truth value of an optional dictionary: [None] and [{}] are false. *)
Definition dict_truthy (d : option (gmap string Value)) : bool :=
  match d with
  | None => false
  | Some m => negb (Nat.eqb (size m) 0)
  end.

(** Truth value of a string: only the empty string is false. *)
Definition str_truthy (s : string) : bool :=
  match s with
  | EmptyString => false
  | String _ _ => true
  end.

(** [d.get(key, default)] *)
Definition dict_get (d : gmap string Value) (key : string) (default : Value) : Value :=
  match d !! key with
  | Some v => v
  | None => default
  end.

(** ** Host enumerations *)

Inductive MediaPlayerState : Type :=
| OFF | ON | IDLE | PLAYING | PAUSED | STANDBY | BUFFERING.

(** ** Objects of the control library *)

(** A bound [schedule_update_ha_state] method of the entity with the given
    unique id: what the adapter registers as a client callback. *)
Inductive Callback : Type :=
| schedule_update_ha_state (unique_id : string).

Module Snapstream.
Record t : Type := mk {
  identifier : string;
  name : string;
  status : string;
  metadata : option (gmap string Value);
  properties : option (gmap string Value)
}.
End Snapstream.

Module Snapgroup.
Record t : Type := mk {
  identifier : string;
  muted : bool;
  stream : string;
  stream_status : string;
  clients : list string
}.
End Snapgroup.

(** The saved copy of a client's volume, mute flag and latency. *)
Record Snapshot : Type := mkSnapshot {
  snap_volume : Z;
  snap_muted : bool;
  snap_latency : Z
}.

Module Snapclient.
Record t : Type := mk {
  identifier : string;
  friendly_name : string;
  connected : bool;
  volume : Z;
  muted : bool;
  latency : Z;
  group : Snapgroup.t;
  snapshot_slot : option Snapshot;
  callback : option Callback
}.
End Snapclient.

Module Snapserver.
Record t : Type := mk {
  clients : list Snapclient.t;
  streams : list Snapstream.t
}.

(** Modelled from the spec: the lookup [server.stream(id)] of the control
    library, which is not part of the adapter's source; it fails with
    [NotFound] when no stream has that identifier. *)
Definition stream (srv : t) (id : string) : pyresult Snapstream.t :=
  match List.find (fun s => String.eqb (Snapstream.identifier s) id) (streams srv) with
  | Some s => Ok s
  | None => Raise NotFound
  end.

(** Modelled from the spec: the lookup [server.client(id)] of the control
    library; it fails with [NotFound] when no client has that identifier. *)
Definition client (srv : t) (id : string) : pyresult Snapclient.t :=
  match List.find (fun c => String.eqb (Snapclient.identifier c) id) (clients srv) with
  | Some c => Ok c
  | None => Raise NotFound
  end.
End Snapserver.

(** ** The state an entity acts on *)

(** A request written to the transport by the control library. *)
Inductive Request : Type :=
| ReqSetVolume (client_id : string) (percent : Z)
| ReqSetMuted (client_id : string) (mute : bool)
| ReqSetLatency (client_id : string) (ms : Z)
| ReqSetStream (group_id : string) (stream_id : string).

(** The fields [__init__] stores in a [SnapcastClientDevice]. *)
Record SnapcastClientDevice : Type := mkDevice {
  _client : Snapclient.t;
  _host_id : string;
  _attr_unique_id : string
}.

(** What a method of one [SnapcastClientDevice] can reach: the server held
    by its coordinator, the entity [self] (whose [_client] is the library's
    client object, with its group), the requests sent so far (oldest first)
    and the number of state writes made with [async_write_ha_state]. *)
Record World : Type := mkWorld {
  server : Snapserver.t;
  self : SnapcastClientDevice;
  sent : list Request;
  ha_writes : nat
}.

(** Awaitable code: it threads the world and may raise. *)
Definition M (A : Type) : Type := World -> pyresult A * World.

Definition ret {A : Type} (a : A) : M A := fun w => (Ok a, w).

Definition raise {A : Type} (e : exn) : M A := fun w => (Raise e, w).

Definition bind {A B : Type} (m : M A) (k : A -> M B) : M B :=
  fun w =>
    match m w with
    | (Ok a, w') => k a w'
    | (Raise e, w') => (Raise e, w')
    end.

Definition get : M World := fun w => (Ok w, w).

Definition modify (f : World -> World) : M unit := fun w => (Ok tt, f w).

(** Lifts the result of an expression that reads no state. *)
Definition lift {A : Type} (r : pyresult A) : M A := fun w => (r, w).

Declare Scope py_scope.
Delimit Scope py_scope with py.
Notation "'let*' x := m 'in' k" := (bind m (fun x => k))
  (at level 10, x name, m at level 100, k at level 200) : py_scope.
Notation "m >> k" := (bind m (fun _ => k))
  (at level 100, k at level 200, right associativity) : py_scope.
Local Open Scope py_scope.

Definition set_client (f : Snapclient.t -> Snapclient.t) (w : World) : World :=
  mkWorld (server w)
    (mkDevice (f (_client (self w))) (_host_id (self w)) (_attr_unique_id (self w)))
    (sent w) (ha_writes w).

Definition send (r : Request) : M unit :=
  modify (fun w => mkWorld (server w) (self w) (sent w ++ [r]) (ha_writes w)).

Definition with_volume (v : Z) (c : Snapclient.t) : Snapclient.t :=
  Snapclient.mk (Snapclient.identifier c) (Snapclient.friendly_name c)
    (Snapclient.connected c) v (Snapclient.muted c) (Snapclient.latency c)
    (Snapclient.group c) (Snapclient.snapshot_slot c) (Snapclient.callback c).

Definition with_muted (b : bool) (c : Snapclient.t) : Snapclient.t :=
  Snapclient.mk (Snapclient.identifier c) (Snapclient.friendly_name c)
    (Snapclient.connected c) (Snapclient.volume c) b (Snapclient.latency c)
    (Snapclient.group c) (Snapclient.snapshot_slot c) (Snapclient.callback c).

Definition with_latency (ms : Z) (c : Snapclient.t) : Snapclient.t :=
  Snapclient.mk (Snapclient.identifier c) (Snapclient.friendly_name c)
    (Snapclient.connected c) (Snapclient.volume c) (Snapclient.muted c) ms
    (Snapclient.group c) (Snapclient.snapshot_slot c) (Snapclient.callback c).

Definition with_group (g : Snapgroup.t) (c : Snapclient.t) : Snapclient.t :=
  Snapclient.mk (Snapclient.identifier c) (Snapclient.friendly_name c)
    (Snapclient.connected c) (Snapclient.volume c) (Snapclient.muted c)
    (Snapclient.latency c) g (Snapclient.snapshot_slot c) (Snapclient.callback c).

Definition with_snapshot_slot (s : option Snapshot) (c : Snapclient.t) : Snapclient.t :=
  Snapclient.mk (Snapclient.identifier c) (Snapclient.friendly_name c)
    (Snapclient.connected c) (Snapclient.volume c) (Snapclient.muted c)
    (Snapclient.latency c) (Snapclient.group c) s (Snapclient.callback c).

Definition with_callback (cb : option Callback) (c : Snapclient.t) : Snapclient.t :=
  Snapclient.mk (Snapclient.identifier c) (Snapclient.friendly_name c)
    (Snapclient.connected c) (Snapclient.volume c) (Snapclient.muted c)
    (Snapclient.latency c) (Snapclient.group c) (Snapclient.snapshot_slot c) cb.

(** ** Operations of the control library

    The library is a dependency of the adapter and its source is not part of
    the adapter; each operation below follows the specification's contract
    for it. *)

(** Modelled from the spec: [client.set_volume(percent)], absent from the
    source; a percentage outside 0..100 fails with [InvalidArgument],
    otherwise the request is sent and the client's volume updated. *)
Definition client_set_volume (percent : Z) : M unit :=
  let* w := get in
  if ((0 <=? percent) && (percent <=? 100))%Z then
    send (ReqSetVolume (Snapclient.identifier (_client (self w))) percent) >>
    modify (set_client (with_volume percent))
  else raise InvalidArgument.

(** Modelled from the spec: [client.set_muted(mute)], absent from the
    source; the request is sent and the client's mute flag updated. *)
Definition client_set_muted (mute : bool) : M unit :=
  let* w := get in
  send (ReqSetMuted (Snapclient.identifier (_client (self w))) mute) >>
  modify (set_client (with_muted mute)).

(** Modelled from the spec: [client.set_latency(ms)], absent from the
    source; any integer is taken, negative or large, the request is sent and
    the client's latency updated. *)
Definition client_set_latency (ms : Z) : M unit :=
  let* w := get in
  send (ReqSetLatency (Snapclient.identifier (_client (self w))) ms) >>
  modify (set_client (with_latency ms)).

(** Modelled from the spec: [client.snapshot()], absent from the source; a
    local copy of volume, mute flag and latency into the snapshot slot. *)
Definition client_snapshot (c : Snapclient.t) : Snapclient.t :=
  with_snapshot_slot
    (Some (mkSnapshot (Snapclient.volume c) (Snapclient.muted c) (Snapclient.latency c))) c.

(** Modelled from the spec: [client.restore()], absent from the source; it
    fails with [InvalidState] when the slot is empty, otherwise issues the
    three set-commands with the saved values and clears the slot after all
    three succeeded. *)
Definition client_restore : M unit :=
  let* w := get in
  match Snapclient.snapshot_slot (_client (self w)) with
  | None => raise InvalidState
  | Some s =>
      client_set_volume (snap_volume s) >>
      client_set_muted (snap_muted s) >>
      client_set_latency (snap_latency s) >>
      modify (set_client (with_snapshot_slot None))
  end.

(** Modelled from the spec: [client.set_callback(fn | None)], absent from
    the source; it stores the callback, and [None] unregisters. *)
Definition client_set_callback (cb : option Callback) (c : Snapclient.t) : Snapclient.t :=
  with_callback cb c.

(** Modelled from the spec: [group.streams_by_name()], absent from the
    source; a name-to-stream dictionary built from the server's current
    streams (a later stream of the same name replaces an earlier one). *)
Definition streams_by_name (srv : Snapserver.t) : gmap string Snapstream.t :=
  foldl (fun m s => <[Snapstream.name s := s]> m) ∅ (Snapserver.streams srv).

(** Modelled from the spec: [group.set_stream(stream_id)], absent from the
    source; it fails with [NotFound] when the server has no such stream,
    otherwise the request is sent and the group's active stream updated. *)
Definition group_set_stream (stream_id : string) : M unit :=
  let* w := get in
  let* s := lift (Snapserver.stream (server w) stream_id) in
  let g := Snapclient.group (_client (self w)) in
  send (ReqSetStream (Snapgroup.identifier g) stream_id) >>
  modify (set_client (with_group
    (Snapgroup.mk (Snapgroup.identifier g) (Snapgroup.muted g) stream_id
       (Snapstream.status s) (Snapgroup.clients g)))).

(** Modelled from the spec: [async_write_ha_state] of the host's entity base
    class, absent from the source; it publishes the entity state once. *)
Definition async_write_ha_state : M unit :=
  modify (fun w => mkWorld (server w) (self w) (sent w) (S (ha_writes w))).

(** ** Floating-point helpers

    A Python float is a rational number; [fl] below stands for rounding a
    real result to the nearest float, so [x * y] on floats is
    [fl (x * y)] and the true division of two integers is [fl (a / b)]. *)

(** [round(x)] for a float [x]: the nearest integer, ties to the even one. *)
Definition py_round (x : Q) : Z :=
  let f := Qfloor x in
  match Qcompare (x - inject_Z f) (1 # 2) with
  | Lt => f
  | Gt => f + 1
  | Eq => if Z.even f then f else f + 1
  end.

(** ** The adapter: [SnapcastClientDevice] *)

Definition STREAM_STATUS : gmap string (option MediaPlayerState) :=
  <["idle" := Some IDLE]> (<["playing" := Some PLAYING]> (<["unknown" := None]> ∅)).

(** [get_unique_id(host, id)]; [CLIENT_PREFIX] is a constant of the
    integration whose value the source imports. *)
Definition get_unique_id (CLIENT_PREFIX : string) (host id : string) : string :=
  CLIENT_PREFIX +:+ host +:+ "_" +:+ id.

(** [SnapcastClientDevice.__init__] *)
Definition __init__ (CLIENT_PREFIX : string) (client : Snapclient.t) (host_id : string)
  : SnapcastClientDevice :=
  mkDevice client host_id (get_unique_id CLIENT_PREFIX host_id (Snapclient.identifier client)).

Definition _current_group (w : World) : Snapgroup.t :=
  Snapclient.group (_client (self w)).

Definition is_volume_muted (w : World) : bool :=
  Snapclient.muted (_client (self w)).

(** The [state] property; [None] is Python's [None]. *)
Definition state (w : World) : option MediaPlayerState :=
  if Snapclient.connected (_client (self w)) then
    if is_volume_muted w || Snapgroup.muted (_current_group w) then Some IDLE
    else
      match STREAM_STATUS !! Snapgroup.stream_status (_current_group w) with
      | Some st => st
      | None => None
      end
  else Some STANDBY.

Definition source (w : World) : string :=
  Snapgroup.stream (_current_group w).

Definition async_select_source (source : string) : M unit :=
  let* w := get in
  let streams := streams_by_name (server w) in
  match streams !! source with
  | Some s => group_set_stream (Snapstream.identifier s) >> async_write_ha_state
  | None => ret tt
  end.

Definition async_mute_volume (mute : bool) : M unit :=
  client_set_muted mute >> async_write_ha_state.

Definition volume_level (fl : Q -> Q) (w : World) : Q :=
  fl (inject_Z (Snapclient.volume (_client (self w))) / 100)%Q.

Definition async_set_volume_level (fl : Q -> Q) (volume : Q) : M unit :=
  client_set_volume (py_round (fl (volume * 100)%Q)) >> async_write_ha_state.

(** [snapshot] is a plain method: it is not a coroutine and awaits nothing. *)
Definition snapshot (w : World) : World :=
  set_client client_snapshot w.

Definition async_restore : M unit :=
  client_restore >> async_write_ha_state.

Definition latency (w : World) : Z :=
  Snapclient.latency (_client (self w)).

Definition async_set_latency (latency : Z) : M unit :=
  client_set_latency latency >> async_write_ha_state.

(** [async_added_to_hass]; [super_async_added_to_hass] is the inherited
    hook of the coordinator entity, which the source awaits first. *)
Definition async_added_to_hass (super_async_added_to_hass : M unit) : M unit :=
  super_async_added_to_hass >>
  let* w := get in
  modify (set_client
    (client_set_callback (Some (schedule_update_ha_state (_attr_unique_id (self w)))))).

Definition async_will_remove_from_hass : M unit :=
  modify (set_client (client_set_callback None)).

(** [_get_metadata(key, default)] *)
Definition _get_metadata (key : string) (default : Value) (w : World) : pyresult Value :=
  match Snapserver.stream (server w) (Snapgroup.stream (_current_group w)) with
  | Raise e => Raise e
  | Ok s =>
      let metadata := Snapstream.metadata s in
      match metadata with
      | Some m => if dict_truthy metadata then Ok (dict_get m key default) else Ok default
      | None => Ok default
      end
  end.

Definition media_title (w : World) : pyresult Value :=
  _get_metadata "title" VNone w.

Definition media_image_url (w : World) : pyresult Value :=
  _get_metadata "artUrl" VNone w.

Definition media_artist (w : World) : pyresult Value :=
  match _get_metadata "artist" (VList [VNone]) w with
  | Raise e => Raise e
  | Ok v => subscript0 v
  end.

Definition media_album_name (w : World) : pyresult Value :=
  _get_metadata "album" VNone w.

Definition media_album_artist (w : World) : pyresult Value :=
  match _get_metadata "albumArtist" (VList [VNone]) w with
  | Raise e => Raise e
  | Ok v => subscript0 v
  end.

(** In [media_track], [media_duration] and [media_position] the name
    [value] is bound to the result of the comparison [... is not None]. *)
Definition media_track (w : World) : pyresult Value :=
  match _get_metadata "trackNumber" VNone w with
  | Raise e => Raise e
  | Ok v =>
      let value := is_not_None v in
      if value then Ok (VInt (int_of_bool value)) else Ok VNone
  end.

Definition media_duration (w : World) : pyresult Value :=
  match _get_metadata "duration" VNone w with
  | Raise e => Raise e
  | Ok v =>
      let value := is_not_None v in
      if value then Ok (VInt (int_of_bool value)) else Ok VNone
  end.

Definition media_position (w : World) : pyresult Value :=
  match Snapserver.stream (server w) (Snapgroup.stream (_current_group w)) with
  | Raise e => Raise e
  | Ok s =>
      let properties := Snapstream.properties s in
      match properties with
      | Some p =>
          if dict_truthy properties then
            let value := is_not_None (dict_get p "position" VNone) in
            if value then Ok (VInt (int_of_bool value)) else Ok VNone
          else Ok VNone
      | None => Ok VNone
      end
  end.

(** ** Entity services *)

(** The names under which the three services are registered; their string
    values are constants the source imports. *)
Inductive Service : Type :=
| SERVICE_SNAPSHOT
| SERVICE_RESTORE
| SERVICE_SET_LATENCY.

Definition Service_eqb (a b : Service) : bool :=
  match a, b with
  | SERVICE_SNAPSHOT, SERVICE_SNAPSHOT => true
  | SERVICE_RESTORE, SERVICE_RESTORE => true
  | SERVICE_SET_LATENCY, SERVICE_SET_LATENCY => true
  | _, _ => false
  end.

(** Modelled from the spec: the validator [cv.positive_int] of the host's
    configuration helpers, absent from the source; the latency of a service
    call is a positive integer, so a negative one is refused.  Zero is let
    through here; no property below depends on how zero is treated. *)
Definition positive_int (v : Z) : pyresult Z :=
  if (0 <=? v)%Z then Ok v else Raise Invalid.

(** One [async_register_entity_service] call: the service, the validator of
    its required latency field ([None] when the schema is [None]) and the
    name of the entity method to call. *)
Record EntityService : Type := mkService {
  service_name : Service;
  service_schema : option (Z -> pyresult Z);
  service_func : string
}.

Definition register_services : list EntityService :=
  [ mkService SERVICE_SNAPSHOT None "snapshot";
    mkService SERVICE_RESTORE None "async_restore";
    mkService SERVICE_SET_LATENCY (Some positive_int) "async_set_latency" ].

(** Calling an entity method by its name, with the validated service data. *)
Definition call_method (func : string) (data : option Z) : M unit :=
  if String.eqb func "snapshot" then modify snapshot
  else if String.eqb func "async_restore" then async_restore
  else if String.eqb func "async_set_latency" then
    match data with
    | Some latency => async_set_latency latency
    | None => raise TypeError
    end
  else raise TypeError.

(** Modelled from the spec: how the host's platform serves a call of a
    registered entity service, absent from the source; the data of the call
    (its latency field, if any) is checked against the registered schema and
    the named method is called with the validated data. *)
Definition async_call_entity_service (svc : Service) (data : option Z) : M unit :=
  match List.find (fun s => Service_eqb (service_name s) svc) register_services with
  | None => raise ServiceNotFound
  | Some s =>
      match service_schema s, data with
      | None, None => call_method (service_func s) None
      | Some validate, Some v =>
          let* v' := lift (validate v) in
          call_method (service_func s) (Some v')
      | None, Some _ | Some _, None => raise Invalid
      end
  end.

(** ** Set-up of a config entry: [_check_entities] *)

(** The state [_check_entities] works on: the closure variable
    [_known_client_ids], the host's entity registry restricted to this
    integration's media players (unique id to entity id), and the batches
    handed to [async_add_entities] so far. *)
Record Setup : Type := mkSetup {
  _known_client_ids : gset string;
  entity_registry : gmap string string;
  added : list (list SnapcastClientDevice)
}.

(** [_update_known_ids]; [-=] and [|=] update the set object in place, and
    that object is the one [_known_client_ids] names, so the updated set is
    returned first and stored back by the caller. *)
Definition _update_known_ids (known_ids ids : gset string)
  : gset string * (gset string * gset string) :=
  let ids_to_add := ids ∖ known_ids in
  let ids_to_remove := known_ids ∖ ids in
  let known_ids := known_ids ∖ ids_to_remove in
  let known_ids := known_ids ∪ ids_to_add in
  (known_ids, (ids_to_add, ids_to_remove)).

(** A list comprehension whose element expression may raise. *)
Fixpoint comprehension {A B : Type} (f : A -> pyresult B) (l : list A) : pyresult (list B) :=
  match l with
  | [] => Ok []
  | x :: l' =>
      match f x with
      | Raise e => Raise e
      | Ok y =>
          match comprehension f l' with
          | Raise e => Raise e
          | Ok ys => Ok (y :: ys)
          end
      end
  end.

(** Modelled from the spec: [async_get_entity_id] of the host's entity
    registry, absent from the source; the entity id registered for a unique
    id of this integration, if any. *)
Definition async_get_entity_id (reg : gmap string string) (unique_id : string)
  : option string :=
  reg !! unique_id.

(** Modelled from the spec: [async_remove] of the host's entity registry,
    absent from the source; the entry of that entity id is dropped. *)
Definition async_remove (entity_id : string) (reg : gmap string string)
  : gmap string string :=
  filter (fun kv => kv.2 ≠ entity_id) reg.

(** One round of the loop over [clients_to_remove]. *)
Definition remove_stale (CLIENT_PREFIX host_id : string)
    (reg : gmap string string) (client_id : string) : gmap string string :=
  match async_get_entity_id reg (get_unique_id CLIENT_PREFIX host_id client_id) with
  | Some entity_id =>
      if str_truthy entity_id then async_remove entity_id reg else reg
  | None => reg
  end.

Definition _check_entities (CLIENT_PREFIX : string) (srv : Snapserver.t)
    (host_id : string) (st : Setup) : pyresult unit * Setup :=
  let client_ids : gset string :=
    list_to_set (map Snapclient.identifier (Snapserver.clients srv)) in
  let '(known, (clients_to_add, clients_to_remove)) :=
    _update_known_ids (_known_client_ids st) client_ids in
  let st1 := mkSetup known (entity_registry st) (added st) in
  match comprehension
          (fun c => match Snapserver.client srv c with
                    | Ok cl => Ok (Snapclient.friendly_name cl)
                    | Raise e => Raise e
                    end)
          (elements clients_to_add) with
  | Raise e => (Raise e, st1)
  | Ok _ =>
      match comprehension
              (fun client_id => match Snapserver.client srv client_id with
                                | Ok cl => Ok (__init__ CLIENT_PREFIX cl host_id)
                                | Raise e => Raise e
                                end)
              (elements clients_to_add) with
      | Raise e => (Raise e, st1)
      | Ok entities =>
          let reg := foldl (remove_stale CLIENT_PREFIX host_id) (entity_registry st)
                       (elements clients_to_remove) in
          (Ok tt, mkSetup known reg (added st ++ [entities]))
      end
  end.

(** ** Further members of the adapter *)

(** The [identifier] property of an entity. *)
Definition identifier (e : SnapcastClientDevice) : string :=
  Snapclient.identifier (_client e).

(** The [available] property; [super_available] is the value of the
    inherited property of the coordinator entity. *)
Definition available (super_available : bool) (w : World) : bool :=
  super_available && Snapclient.connected (_client (self w)).

(** The [source_list] property: the keys of [streams_by_name()].  The keys
    come in the order the dictionary lists them, which is not modelled. *)
Definition source_list (w : World) : list string :=
  map fst (map_to_list (streams_by_name (server w))).

(** The [group_members] property, over the host's entity registry. *)
Definition group_members (CLIENT_PREFIX : string) (reg : gmap string string) (w : World)
  : list string :=
  omap (fun client_id =>
          match async_get_entity_id reg
                  (get_unique_id CLIENT_PREFIX (_host_id (self w)) client_id) with
          | Some entity_id => if str_truthy entity_id then Some entity_id else None
          | None => None
          end)
       (Snapgroup.clients (_current_group w)).




(** [async_setup_entry], from the host id on: the services are registered,
    the known-client set starts empty, the registry entries of the config
    entry are cleared (a call of the host, [async_clear_config_entry]) and
    [_check_entities] runs once.  The result pairs the registered services
    with the outcome of that run. *)
Definition async_setup_entry (CLIENT_PREFIX : string) (srv : Snapserver.t)
    (host : string) (port : Z)
    (async_clear_config_entry : gmap string string -> gmap string string)
    (reg : gmap string string) : list EntityService * (pyresult unit * Setup) :=
  let host_id := host +:+ ":" +:+ pretty port in
  let services := register_services in
  let _known_client_ids : gset string := ∅ in
  let reg := async_clear_config_entry reg in
  (services, _check_entities CLIENT_PREFIX srv host_id (mkSetup _known_client_ids reg [])).

(** ** Notions used to state the properties *)

(** A change of a client's volume, mute flag or latency between a snapshot
    and a restore: a command sent through the library, or a value pushed by
    a notification of the server. *)
Inductive Mutation : Type :=
| CmdVolume (percent : Z)
| CmdMuted (mute : bool)
| CmdLatency (ms : Z)
| NotifiedVolume (percent : Z)
| NotifiedMuted (mute : bool)
| NotifiedLatency (ms : Z).

(** A command that fails leaves the caller with the world it failed in. *)
Definition mutate (w : World) (mu : Mutation) : World :=
  match mu with
  | CmdVolume v => snd (client_set_volume v w)
  | CmdMuted b => snd (client_set_muted b w)
  | CmdLatency ms => snd (client_set_latency ms w)
  | NotifiedVolume v => set_client (with_volume v) w
  | NotifiedMuted b => set_client (with_muted b) w
  | NotifiedLatency ms => set_client (with_latency ms) w
  end.

(** The value a (possibly absent) dictionary holds under a key. *)
Definition stored (d : option (gmap string Value)) (key : string) : option Value :=
  match d with
  | Some m => m !! key
  | None => None
  end.

(** The key maps to a value that is not [None]. *)
Definition maps_to_non_None (d : option (gmap string Value)) (key : string) : bool :=
  match stored d key with
  | Some v => is_not_None v
  | None => false
  end.


(** A registry as the host keeps it: entity ids are non-empty and no two
    entries share one. *)
Definition registry_wf (reg : gmap string string) : Prop :=
  map_Forall (fun _ entity_id => entity_id ≠ EmptyString) reg ∧
  NoDup (map snd (map_to_list reg)).

(** The two facts about a registry the loop over stale clients relies on. *)
Definition reg_ok (reg : gmap string string) : Prop :=
  (forall u e, reg !! u = Some e -> e ≠ EmptyString) ∧
  (forall u1 u2 e, reg !! u1 = Some e -> reg !! u2 = Some e -> u1 = u2).

(** The identifiers of the server's current clients. *)
Definition server_client_ids (srv : Snapserver.t) : gset string :=
  list_to_set (map Snapclient.identifier (Snapserver.clients srv)).

(** ** Sample configurations

    One server with two clients in one group and three streams; they serve
    as concrete inputs below. *)

Definition sample_group : Snapgroup.t :=
  Snapgroup.mk "G1" false "S1" "playing" ["C1"; "C2"].

Definition sample_client : Snapclient.t :=
  Snapclient.mk "C1" "Kitchen" true 40 false 20 sample_group None None.

Definition sample_client2 : Snapclient.t :=
  Snapclient.mk "C2" "Hall" true 65 true 0 sample_group None None.

(** A stream with ordinary metadata and a playback position. *)
Definition sample_stream : Snapstream.t :=
  Snapstream.mk "S1" "Radio" "playing"
    (Some (<["title" := VStr "Song"]> (<["artist" := VList [VStr "Band"; VStr "Guest"]]>
          (<["trackNumber" := VInt 7]> (<["duration" := VFloat (2125 # 10)]> ∅)))))
    (Some (<["position" := VFloat (31 # 2)]> ∅)).

(** A stream whose artist list is empty and whose title is a number. *)
Definition odd_stream : Snapstream.t :=
  Snapstream.mk "S2" "Aux" "idle"
    (Some (<["artist" := VList []]> (<["title" := VInt 5]> ∅)))
    None.

(** A stream without metadata whose properties give a position. *)
Definition bare_stream : Snapstream.t :=
  Snapstream.mk "S3" "Pipe" "unknown" None (Some (<["position" := VInt 3]> ∅)).

Definition sample_server : Snapserver.t :=
  Snapserver.mk [sample_client; sample_client2] [sample_stream; odd_stream; bare_stream].

Definition sample_world : World :=
  mkWorld sample_server (mkDevice sample_client "host:1705" "snapcast_client_host:1705_C1") [] 0.

(** The same entity while its group plays the stream [odd_stream]. *)
Definition odd_world : World :=
  set_client (with_group (Snapgroup.mk "G1" false "S2" "idle" ["C1"; "C2"])) sample_world.

(** A set-up state that knows the clients C1 and C9, both registered. *)
Definition sample_setup : Setup :=
  mkSetup ({["C1"]} ∪ {["C9"]})
    (<[get_unique_id "snapcast_client_" "host:1705" "C1" := "media_player.kitchen"]>
       (<[get_unique_id "snapcast_client_" "host:1705" "C9" := "media_player.attic"]> ∅))
    [].

(** The same entity while its group still lists the client C9, which the
    server no longer has. *)
Definition stale_world : World :=
  set_client (with_group (Snapgroup.mk "G1" false "S1" "playing" ["C1"; "C9"])) sample_world.

(** A stream that carries a position in its metadata and has no
    properties. *)
Definition misplaced_stream : Snapstream.t :=
  Snapstream.mk "S4" "Tape" "playing"
    (Some (<["position" := VInt 5]> (<["title" := VStr "Side A"]> ∅)))
    None.

(** An entity whose group plays [misplaced_stream]. *)
Definition misplaced_world : World :=
  mkWorld (Snapserver.mk [sample_client] [misplaced_stream])
    (mkDevice (with_group (Snapgroup.mk "G1" false "S4" "playing" ["C1"]) sample_client)
       "host:1705" "snapcast_client_host:1705_C1")
    [] 0.

(** The same entity while its group names a stream the server does not have. *)
Definition dangling_world : World :=
  set_client (with_group (Snapgroup.mk "G1" false "S404" "unknown" ["C1"; "C2"])) sample_world.


(** * Properties *)

(** ** Player state *)

Lemma STREAM_STATUS_lookup (k : string) :
  STREAM_STATUS !! k =
    if String.eqb k "playing" then Some (Some PLAYING)
    else if String.eqb k "idle" then Some (Some IDLE)
    else if String.eqb k "unknown" then Some None
    else None.
Proof.
  unfold STREAM_STATUS.
  destruct (String.eqb_spec k "playing") as [->|Hp]; [reflexivity|].
  destruct (String.eqb_spec k "idle") as [->|Hi]; [reflexivity|].
  destruct (String.eqb_spec k "unknown") as [->|Hu]; [reflexivity|].
  rewrite !lookup_insert_ne by congruence.
  apply lookup_empty.
Qed.

(** C10: a disconnected client is in STANDBY; a connected client that is
    muted itself or whose group is muted is IDLE whatever the stream status;
    otherwise the state is PLAYING for the status "playing", IDLE for "idle",
    and None for "unknown" and for every other status. *)
Theorem state_by_cases (w : World) :
  state w =
    let c := _client (self w) in
    let g := Snapclient.group c in
    if Snapclient.connected c then
      if Snapclient.muted c || Snapgroup.muted g then Some IDLE
      else if String.eqb (Snapgroup.stream_status g) "playing" then Some PLAYING
      else if String.eqb (Snapgroup.stream_status g) "idle" then Some IDLE
      else None
    else Some STANDBY.
Proof.
  unfold state, is_volume_muted, _current_group. cbv zeta.
  destruct (Snapclient.connected (_client (self w))); [|reflexivity].
  destruct (Snapclient.muted (_client (self w)) || Snapgroup.muted _); [reflexivity|].
  rewrite STREAM_STATUS_lookup.
  destruct (String.eqb _ "playing"); [reflexivity|].
  destruct (String.eqb _ "idle"); [reflexivity|].
  destruct (String.eqb _ "unknown"); reflexivity.
Qed.

(** ** Media accessors *)

Lemma dict_truthy_false_stored (d : option (gmap string Value)) (key : string) :
  dict_truthy d = false -> stored d key = None.
Proof.
  destruct d as [m|]; [|reflexivity]. simpl. intros H.
  apply negb_false_iff, Nat.eqb_eq, map_size_empty_iff in H.
  subst m. apply lookup_empty.
Qed.

Lemma _get_metadata_resolved (key : string) (default : Value) (w : World) (s : Snapstream.t) :
  Snapserver.stream (server w) (source w) = Ok s ->
  _get_metadata key default w =
    Ok (match stored (Snapstream.metadata s) key with
        | Some v => v
        | None => default
        end).
Proof.
  unfold _get_metadata, source. intros ->.
  pose proof (dict_truthy_false_stored (Snapstream.metadata s) key) as Hf.
  destruct (Snapstream.metadata s) as [m|]; [|reflexivity].
  destruct (dict_truthy (Some m)).
  - reflexivity.
  - rewrite Hf by reflexivity. reflexivity.
Qed.

(** C3, as amended: for a resolved stream the accessors of plain fields
    (title, art URL, album) never raise and return the stored value, or None
    when the metadata is absent or empty or lacks the key; the two artist
    accessors return None when the metadata is absent or empty or lacks the
    key, and the first element when the stored value is a non-empty list. *)
Theorem media_accessors_defaults (w : World) (s : Snapstream.t) :
  Snapserver.stream (server w) (source w) = Ok s ->
  let md := Snapstream.metadata s in
  media_title w = Ok (default VNone (stored md "title")) ∧
  media_image_url w = Ok (default VNone (stored md "artUrl")) ∧
  media_album_name w = Ok (default VNone (stored md "album")) ∧
  (stored md "artist" = None -> media_artist w = Ok VNone) ∧
  (forall x l, stored md "artist" = Some (VList (x :: l)) -> media_artist w = Ok x) ∧
  (stored md "albumArtist" = None -> media_album_artist w = Ok VNone) ∧
  (forall x l, stored md "albumArtist" = Some (VList (x :: l)) ->
     media_album_artist w = Ok x).
Proof.
  intros Hs md.
  unfold media_title, media_image_url, media_album_name, media_artist, media_album_artist.
  rewrite !(_get_metadata_resolved _ _ w s Hs). fold md.
  split_and!.
  - destruct (stored md "title"); reflexivity.
  - destruct (stored md "artUrl"); reflexivity.
  - destruct (stored md "album"); reflexivity.
  - intros ->. reflexivity.
  - intros x l ->. reflexivity.
  - intros ->. reflexivity.
  - intros x l ->. reflexivity.
Qed.

Lemma media_accessors_defaults_witness :
  media_title sample_world = Ok (VStr "Song") ∧
  media_artist sample_world = Ok (VStr "Band") ∧
  media_album_artist sample_world = Ok VNone.
Proof.
  pose proof (media_accessors_defaults sample_world sample_stream eq_refl)
    as (Ht & _ & _ & _ & Ha & Hn & _).
  split; [exact Ht|].
  split; [exact (Ha (VStr "Band") [VStr "Guest"] eq_refl)|].
  exact (Hn eq_refl).
Defined.

(** C3 fails as stated: with an empty artist list [media_artist] raises
    IndexError, and a title of an unexpected shape is returned as it is, not
    replaced by None. *)
Lemma media_artist_empty_list_raises :
  Snapserver.stream (server odd_world) (source odd_world) = Ok odd_stream ∧
  stored (Snapstream.metadata odd_stream) "artist" = Some (VList []) ∧
  media_artist odd_world = Raise IndexError ∧
  media_title odd_world = Ok (VInt 5).
Proof. split_and!; reflexivity. Qed.

(** C9, as amended: for a resolved stream, with non-empty metadata or not,
    [media_track] and [media_duration] return 1 when the metadata maps
    "trackNumber" (respectively "duration") to a value that is not None, and
    None otherwise; [media_position] returns 1 when the stream's properties
    (not its metadata) map "position" to a value that is not None, and None
    otherwise.  The stored number plays no part in the result. *)
Theorem media_numbers_constant_one (w : World) (s : Snapstream.t) :
  Snapserver.stream (server w) (source w) = Ok s ->
  media_track w =
    Ok (if maps_to_non_None (Snapstream.metadata s) "trackNumber" then VInt 1 else VNone) ∧
  media_duration w =
    Ok (if maps_to_non_None (Snapstream.metadata s) "duration" then VInt 1 else VNone) ∧
  media_position w =
    Ok (if maps_to_non_None (Snapstream.properties s) "position" then VInt 1 else VNone).
Proof.
  intros Hs.
  unfold media_track, media_duration, media_position, maps_to_non_None.
  rewrite !(_get_metadata_resolved _ _ w s Hs).
  split_and!.
  - destruct (stored (Snapstream.metadata s) "trackNumber") as [v|]; [|reflexivity].
    destruct v; reflexivity.
  - destruct (stored (Snapstream.metadata s) "duration") as [v|]; [|reflexivity].
    destruct v; reflexivity.
  - unfold source in Hs. rewrite Hs.
    pose proof (dict_truthy_false_stored (Snapstream.properties s) "position") as Hf.
    destruct (Snapstream.properties s) as [p|]; [|reflexivity].
    destruct (dict_truthy (Some p)).
    + unfold dict_get. simpl. destruct (p !! "position") as [v|]; [|reflexivity].
      destruct v; reflexivity.
    + rewrite Hf by reflexivity. reflexivity.
Qed.

(** C9 fails as stated for [media_position]: with non-empty metadata that
    maps "position" to 5 and no properties it returns None; and with
    non-empty metadata that has no "position" and properties that map
    "position" to a number it returns 1. *)
Lemma media_position_ignores_metadata :
  (Snapserver.stream (server misplaced_world) (source misplaced_world) = Ok misplaced_stream ∧
   dict_truthy (Snapstream.metadata misplaced_stream) = true ∧
   stored (Snapstream.metadata misplaced_stream) "position" = Some (VInt 5) ∧
   media_position misplaced_world = Ok VNone) ∧
  (Snapserver.stream (server sample_world) (source sample_world) = Ok sample_stream ∧
   dict_truthy (Snapstream.metadata sample_stream) = true ∧
   stored (Snapstream.metadata sample_stream) "position" = None ∧
   media_position sample_world = Ok (VInt 1)).
Proof. split; split_and!; reflexivity. Qed.

Lemma media_numbers_constant_one_witness :
  media_track sample_world = Ok (VInt 1) ∧
  media_duration sample_world = Ok (VInt 1) ∧
  media_position sample_world = Ok (VInt 1).
Proof.
  exact (media_numbers_constant_one sample_world sample_stream eq_refl).
Defined.

(** ** Source selection *)

(** C1, as amended: selecting a source that is not a key of
    [streams_by_name()] completes without an error and changes nothing: no
    [set_stream] request is sent, the group's active stream stays as it was
    and no state is written. *)
Theorem async_select_source_unknown (w : World) (name : string) :
  streams_by_name (server w) !! name = None ->
  async_select_source name w = (Ok tt, w).
Proof.
  intros H. unfold async_select_source, bind, get, ret. rewrite H. reflexivity.
Qed.

Lemma async_select_source_unknown_witness :
  async_select_source "S9" sample_world = (Ok tt, sample_world).
Proof.
  apply (async_select_source_unknown sample_world "S9"). vm_compute. reflexivity.
Defined.

(** C1 fails as stated: selecting the unknown source "S9" does not fail with
    NotFound, it returns normally. *)
Lemma async_select_source_unknown_no_error :
  streams_by_name (server sample_world) !! "S9" = None ∧
  fst (async_select_source "S9" sample_world) = Ok tt ∧
  fst (async_select_source "S9" sample_world) ≠ Raise NotFound.
Proof. split_and!; [reflexivity | reflexivity | discriminate]. Qed.

(** ** Latency *)

(** C2, as amended: the method [async_set_latency] forwards every integer,
    negative or large, unchanged to the client and writes the state once;
    the set-latency service hands a positive latency to that method and
    refuses a negative one before the method is called. *)
Theorem async_set_latency_forwards (ms : Z) (w : World) :
  async_set_latency ms w =
    (Ok tt,
     mkWorld (server w)
       (mkDevice (with_latency ms (_client (self w))) (_host_id (self w))
          (_attr_unique_id (self w)))
       (sent w ++ [ReqSetLatency (Snapclient.identifier (_client (self w))) ms])
       (S (ha_writes w))) ∧
  (0 < ms ->
   async_call_entity_service SERVICE_SET_LATENCY (Some ms) w = async_set_latency ms w) ∧
  (ms < 0 ->
   async_call_entity_service SERVICE_SET_LATENCY (Some ms) w = (Raise Invalid, w)).
Proof.
  split_and!.
  - reflexivity.
  - intros H. unfold async_call_entity_service. simpl.
    unfold bind, lift, positive_int.
    destruct (Z.leb_spec 0 ms); [reflexivity | lia].
  - intros H. unfold async_call_entity_service. simpl.
    unfold bind, lift, positive_int.
    destruct (Z.leb_spec 0 ms); [lia | reflexivity].
Qed.

Lemma async_set_latency_forwards_witness :
  async_call_entity_service SERVICE_SET_LATENCY (Some 250) sample_world =
    async_set_latency 250 sample_world ∧
  async_call_entity_service SERVICE_SET_LATENCY (Some (-5)) sample_world =
    (Raise Invalid, sample_world).
Proof.
  split.
  - apply (async_set_latency_forwards 250 sample_world). lia.
  - apply (async_set_latency_forwards (-5) sample_world). lia.
Defined.

(** C2 fails as stated: a set-latency call with the negative latency -5 is
    refused and nothing is forwarded to the client. *)
Lemma set_latency_service_refuses_negative :
  fst (async_call_entity_service SERVICE_SET_LATENCY (Some (-5)) sample_world)
    = Raise Invalid ∧
  sent (snd (async_call_entity_service SERVICE_SET_LATENCY (Some (-5)) sample_world))
    = [] ∧
  latency (snd (async_call_entity_service SERVICE_SET_LATENCY (Some (-5)) sample_world))
    = 20.
Proof. split_and!; reflexivity. Qed.

Example async_select_source_known :
  sent (snd (async_select_source "Aux" sample_world)) = [ReqSetStream "G1" "S2"] ∧
  source (snd (async_select_source "Aux" sample_world)) = "S2" ∧
  ha_writes (snd (async_select_source "Aux" sample_world)) = 1%nat.
Proof. split_and!; reflexivity. Qed.

(** ** Snapshot and restore *)

(** C7: [snapshot] is a local operation: it stores the client's current
    volume, mute flag and latency in the snapshot slot, sends no request,
    writes no state, and leaves every other field of the client, the entity
    and the server as it was. *)
Theorem snapshot_local (w : World) :
  let c := _client (self w) in
  let c' := _client (self (snapshot w)) in
  Snapclient.snapshot_slot c' =
    Some (mkSnapshot (Snapclient.volume c) (Snapclient.muted c) (Snapclient.latency c)) ∧
  sent (snapshot w) = sent w ∧
  ha_writes (snapshot w) = ha_writes w ∧
  server (snapshot w) = server w ∧
  _host_id (self (snapshot w)) = _host_id (self w) ∧
  _attr_unique_id (self (snapshot w)) = _attr_unique_id (self w) ∧
  Snapclient.identifier c' = Snapclient.identifier c ∧
  Snapclient.friendly_name c' = Snapclient.friendly_name c ∧
  Snapclient.connected c' = Snapclient.connected c ∧
  Snapclient.volume c' = Snapclient.volume c ∧
  Snapclient.muted c' = Snapclient.muted c ∧
  Snapclient.latency c' = Snapclient.latency c ∧
  Snapclient.group c' = Snapclient.group c ∧
  Snapclient.callback c' = Snapclient.callback c.
Proof. cbv zeta. split_and!; reflexivity. Qed.

Lemma client_set_volume_in_range (p : Z) (w : World) :
  0 <= p <= 100 ->
  client_set_volume p w =
    (Ok tt,
     mkWorld (server w)
       (mkDevice (with_volume p (_client (self w))) (_host_id (self w))
          (_attr_unique_id (self w)))
       (sent w ++ [ReqSetVolume (Snapclient.identifier (_client (self w))) p])
       (ha_writes w)).
Proof.
  intros [H0 H100]. unfold client_set_volume, bind, get.
  apply Z.leb_le in H0. apply Z.leb_le in H100. rewrite H0, H100. reflexivity.
Qed.

Lemma mutate_keeps_slot (w : World) (mu : Mutation) :
  Snapclient.snapshot_slot (_client (self (mutate w mu))) =
    Snapclient.snapshot_slot (_client (self w)).
Proof.
  destruct mu as [v| | |v| |]; try reflexivity.
  simpl. unfold client_set_volume, bind, get.
  destruct ((0 <=? v) && (v <=? 100))%Z; reflexivity.
Qed.

Lemma mutations_keep_slot (mus : list Mutation) (w : World) :
  Snapclient.snapshot_slot (_client (self (foldl mutate w mus))) =
    Snapclient.snapshot_slot (_client (self w)).
Proof.
  revert w. induction mus as [|mu mus IH]; intros w; [reflexivity|].
  simpl. rewrite IH. apply mutate_keeps_slot.
Qed.

Lemma async_restore_with_slot (w : World) (s : Snapshot) :
  Snapclient.snapshot_slot (_client (self w)) = Some s ->
  0 <= snap_volume s <= 100 ->
  let c := _client (self w) in
  let id := Snapclient.identifier c in
  async_restore w =
    (Ok tt,
     mkWorld (server w)
       (mkDevice
          (Snapclient.mk id (Snapclient.friendly_name c) (Snapclient.connected c)
             (snap_volume s) (snap_muted s) (snap_latency s) (Snapclient.group c)
             None (Snapclient.callback c))
          (_host_id (self w)) (_attr_unique_id (self w)))
       (sent w ++ [ReqSetVolume id (snap_volume s)] ++ [ReqSetMuted id (snap_muted s)]
               ++ [ReqSetLatency id (snap_latency s)])
       (S (ha_writes w))).
Proof.
  intros Hs Hv c id. unfold async_restore, client_restore, bind, get.
  cbv beta iota. rewrite Hs. cbv beta iota.
  rewrite (client_set_volume_in_range _ w Hv). cbv beta iota.
  unfold client_set_muted, client_set_latency, async_write_ha_state, bind, get,
    send, modify, set_client.
  simpl. rewrite <- !app_assoc. reflexivity.
Qed.

(** C4: take a client whose volume is a percentage.  After [snapshot], any
    sequence of changes to volume, mute flag and latency, and then
    [async_restore], the restore succeeds and volume, mute flag and latency
    are what they were before the changes.  A restore without a snapshot
    fails with InvalidState and changes nothing. *)
Theorem snapshot_restore_roundtrip (w : World) (mus : list Mutation) :
  0 <= Snapclient.volume (_client (self w)) <= 100 ->
  let c := _client (self w) in
  let w' := snd (async_restore (foldl mutate (snapshot w) mus)) in
  (fst (async_restore (foldl mutate (snapshot w) mus)) = Ok tt ∧
   Snapclient.volume (_client (self w')) = Snapclient.volume c ∧
   Snapclient.muted (_client (self w')) = Snapclient.muted c ∧
   Snapclient.latency (_client (self w')) = Snapclient.latency c) ∧
  (Snapclient.snapshot_slot c = None -> async_restore w = (Raise InvalidState, w)).
Proof.
  intros Hv c w'. split.
  - pose proof (mutations_keep_slot mus (snapshot w)) as Hslot.
    simpl in Hslot.
    subst w'. rewrite (async_restore_with_slot _ _ Hslot Hv).
    split_and!; reflexivity.
  - intros Hnone. unfold async_restore, client_restore, bind, get.
    fold c. rewrite Hnone. reflexivity.
Qed.

Lemma snapshot_restore_roundtrip_witness :
  let muts := [CmdVolume 90; NotifiedMuted true; CmdLatency (-30); CmdVolume 150] in
  (latency (foldl mutate (snapshot sample_world) muts) = -30 ∧
   Snapclient.volume (_client (self (foldl mutate (snapshot sample_world) muts))) = 90) ∧
  (fst (async_restore (foldl mutate (snapshot sample_world) muts)) = Ok tt ∧
   Snapclient.volume
     (_client (self (snd (async_restore (foldl mutate (snapshot sample_world) muts))))) = 40 ∧
   Snapclient.muted
     (_client (self (snd (async_restore (foldl mutate (snapshot sample_world) muts))))) = false ∧
   Snapclient.latency
     (_client (self (snd (async_restore (foldl mutate (snapshot sample_world) muts))))) = 20) ∧
  async_restore sample_world = (Raise InvalidState, sample_world).
Proof.
  intros muts.
  assert (Hv : 0 <= Snapclient.volume (_client (self sample_world)) <= 100)
    by (simpl; lia).
  destruct (snapshot_restore_roundtrip sample_world muts Hv) as [Hround Hnone].
  split; [split; reflexivity|].
  split; [exact Hround|].
  exact (Hnone eq_refl).
Defined.

(** ** Callback registration *)

(** C8: when the inherited hook returns normally, [async_added_to_hass]
    registers the entity's [schedule_update_ha_state] as the callback of its
    client; [async_will_remove_from_hass] passes None, so that afterwards no
    callback is registered for the client, whatever was registered before. *)
Theorem callback_registered_then_cleared (super_async_added_to_hass : M unit) (w : World) :
  fst (super_async_added_to_hass w) = Ok tt ->
  let w1 := snd (async_added_to_hass super_async_added_to_hass w) in
  let w2 := snd (async_will_remove_from_hass w1) in
  (fst (async_added_to_hass super_async_added_to_hass w) = Ok tt ∧
   Snapclient.callback (_client (self w1)) =
     Some (schedule_update_ha_state
             (_attr_unique_id (self (snd (super_async_added_to_hass w)))))) ∧
  (fst (async_will_remove_from_hass w1) = Ok tt ∧
   Snapclient.callback (_client (self w2)) = None) ∧
  (forall w0, Snapclient.callback (_client (self (snd (async_will_remove_from_hass w0)))) = None).
Proof.
  intros Hsuper. cbv zeta.
  unfold async_added_to_hass, bind.
  destruct (super_async_added_to_hass w) as [[[]|e] w0]; simpl in Hsuper; [|discriminate].
  split_and!; reflexivity.
Qed.

Lemma callback_registered_then_cleared_witness :
  Snapclient.callback (_client (self (snd (async_added_to_hass (ret tt) sample_world)))) =
    Some (schedule_update_ha_state "snapcast_client_host:1705_C1") ∧
  Snapclient.callback
    (_client (self (snd (async_will_remove_from_hass
                           (snd (async_added_to_hass (ret tt) sample_world)))))) = None.
Proof.
  destruct (callback_registered_then_cleared (ret tt) sample_world eq_refl)
    as ((_ & Hadd) & (_ & Hrem) & _).
  split; [exact Hadd | exact Hrem].
Defined.

Example restore_retains_slot_on_failure :
  let w := set_client (with_volume 150) sample_world in
  fst (async_restore (snapshot w)) = Raise InvalidArgument ∧
  Snapclient.snapshot_slot (_client (self (snd (async_restore (snapshot w))))) =
    Some (mkSnapshot 150 false 20).
Proof. split; reflexivity. Qed.

(** ** Volume *)

Lemma py_round_percent (x : Q) :
  (0 <= x)%Q -> (x <= 100)%Q -> 0 <= py_round x <= 100.
Proof.
  intros H0 H100. unfold py_round.
  pose proof (Qfloor_le x) as Hlo.
  pose proof (Qfloor_resp_le _ _ H0) as Hf0.
  pose proof (Qfloor_resp_le _ _ H100) as Hf100.
  change (Qfloor 0) with 0 in Hf0. change (Qfloor 100) with 100 in Hf100.
  destruct (Z.eq_dec (Qfloor x) 100) as [E|NE].
  - rewrite E in *.
    assert (Hc : Qcompare (x - inject_Z 100) (1 # 2) = Lt).
    { change (x - 100 < 1 # 2)%Q. lra. }
    rewrite Hc. lia.
  - destruct (Qcompare _ _); [destruct (Z.even _)| |]; lia.
Qed.

Section FloatRounding.

(** [fl] rounds a real number to a float.  Rounding to nearest, as the
    Python floats do, is monotone and leaves 0, 1 and 100 as they are. *)
Variable fl : Q -> Q.
Hypothesis fl_monotone : forall x y : Q, (x <= y)%Q -> (fl x <= fl y)%Q.
Hypothesis fl_0 : (fl 0 == 0)%Q.
Hypothesis fl_1 : (fl 1 == 1)%Q.
Hypothesis fl_100 : (fl 100 == 100)%Q.

Lemma volume_level_unit (v : Z) :
  0 <= v <= 100 -> (0 <= fl (inject_Z v / 100) <= 1)%Q.
Proof using fl_monotone fl_0 fl_1.
  intros [Hlo Hhi].
  assert (H0 : (0 <= inject_Z v / 100)%Q).
  { unfold Qle, Qdiv, Qmult, Qinv, inject_Z. simpl. lia. }
  assert (H1 : (inject_Z v / 100 <= 1)%Q).
  { unfold Qle, Qdiv, Qmult, Qinv, inject_Z. simpl. lia. }
  split.
  - apply Qle_trans with (fl 0); [rewrite fl_0; apply Qle_refl|].
    apply fl_monotone, H0.
  - apply Qle_trans with (fl 1); [|rewrite fl_1; apply Qle_refl].
    apply fl_monotone, H1.
Qed.

Lemma level_to_percent (x : Q) :
  (0 <= x <= 1)%Q -> 0 <= py_round (fl (x * 100)) <= 100.
Proof using fl_monotone fl_0 fl_100.
  intros [Hlo Hhi]. apply py_round_percent.
  - apply Qle_trans with (fl 0); [rewrite fl_0; apply Qle_refl|].
    apply fl_monotone. lra.
  - apply Qle_trans with (fl 100); [|rewrite fl_100; apply Qle_refl].
    apply fl_monotone. lra.
Qed.

(** C6: for a client volume v in 0..100 the exposed [volume_level] is the
    float v / 100 and lies in [0, 1]; for a level x in [0, 1],
    [async_set_volume_level] sends exactly one volume request, with the
    integer round(x * 100), which lies in 0..100, and the call succeeds. *)
Theorem volume_level_and_percent_in_range :
  (forall w : World,
      0 <= Snapclient.volume (_client (self w)) <= 100 ->
      volume_level fl w = fl (inject_Z (Snapclient.volume (_client (self w))) / 100)%Q ∧
      (0 <= volume_level fl w <= 1)%Q) ∧
  (forall (x : Q) (w : World),
      (0 <= x <= 1)%Q ->
      let p := py_round (fl (x * 100)) in
      0 <= p <= 100 ∧
      async_set_volume_level fl x w =
        (Ok tt,
         mkWorld (server w)
           (mkDevice (with_volume p (_client (self w))) (_host_id (self w))
              (_attr_unique_id (self w)))
           (sent w ++ [ReqSetVolume (Snapclient.identifier (_client (self w))) p])
           (S (ha_writes w)))).
Proof using fl_monotone fl_0 fl_1 fl_100.
  split.
  - intros w Hv. split; [reflexivity|]. apply volume_level_unit, Hv.
  - intros x w Hx p. pose proof (level_to_percent x Hx) as Hp. fold p in Hp.
    split; [exact Hp|].
    unfold async_set_volume_level, bind. fold p.
    rewrite (client_set_volume_in_range p w Hp). reflexivity.
Qed.

End FloatRounding.

Lemma volume_level_and_percent_in_range_witness :
  (volume_level (fun q => q) sample_world == 2 # 5)%Q ∧
  (0 <= volume_level (fun q => q) sample_world <= 1)%Q ∧
  async_set_volume_level (fun q => q) (57 # 200) sample_world =
    (Ok tt,
     mkWorld sample_server
       (mkDevice (with_volume 28 sample_client) "host:1705" "snapcast_client_host:1705_C1")
       [ReqSetVolume "C1" 28] 1).
Proof.
  assert (Hm : forall x y : Q, (x <= y)%Q -> (x <= y)%Q) by (intros x y H; exact H).
  destruct (volume_level_and_percent_in_range (fun q => q) Hm
              (Qeq_refl 0) (Qeq_refl 1) (Qeq_refl 100)) as [Hlevel Hset].
  split; [reflexivity|].
  split.
  - apply (Hlevel sample_world). simpl. lia.
  - apply (Hset (57 # 200)%Q sample_world). split; unfold Qle; simpl; lia.
Defined.

(** ** Set-up: keeping the entities in step with the server *)

Lemma _update_known_ids_eq (known ids : gset string) :
  _update_known_ids known ids = (ids, (ids ∖ known, known ∖ ids)).
Proof.
  unfold _update_known_ids. f_equal.
  apply set_eq. intros x.
  rewrite elem_of_union, !elem_of_difference.
  destruct (decide (x ∈ ids)), (decide (x ∈ known)); tauto.
Qed.

Lemma client_lookup_known (srv : Snapserver.t) (c : string) :
  c ∈ server_client_ids srv ->
  exists cl, Snapserver.client srv c = Ok cl ∧ Snapclient.identifier cl = c.
Proof.
  unfold server_client_ids, Snapserver.client. intros H.
  apply elem_of_list_to_set, list_elem_of_In, in_map_iff in H.
  destruct H as (cl & Hid & Hin).
  destruct (find _ _) as [cl'|] eqn:Hf.
  - exists cl'. split; [reflexivity|].
    apply find_some in Hf. destruct Hf as [_ Hf]. apply String.eqb_eq, Hf.
  - exfalso. pose proof (find_none _ _ Hf cl Hin) as Hn. simpl in Hn.
    rewrite Hid, String.eqb_refl in Hn. discriminate.
Qed.

Lemma comprehension_total {A B : Type} (f : A -> pyresult B) (l : list A) :
  (forall x, x ∈ l -> exists y, f x = Ok y) ->
  exists ys, comprehension f l = Ok ys ∧ Forall2 (fun x y => f x = Ok y) l ys.
Proof.
  induction l as [|x l IH]; intros H.
  - exists []. split; [reflexivity | constructor].
  - destruct (H x) as [y Hy]; [left|].
    destruct IH as (ys & Hys & HF); [intros z Hz; apply H; right; exact Hz|].
    exists (y :: ys). simpl. rewrite Hy, Hys. split; [reflexivity|].
    constructor; assumption.
Qed.

Lemma append_inj_r (p a b : string) : p +:+ a = p +:+ b -> a = b.
Proof.
  induction p as [|ch p IH]; simpl; intros H; [exact H|].
  injection H as H. apply IH, H.
Qed.

Lemma get_unique_id_inj (prefix host a b : string) :
  get_unique_id prefix host a = get_unique_id prefix host b -> a = b.
Proof.
  unfold get_unique_id. intros H.
  repeat (apply append_inj_r in H). exact H.
Qed.

Lemma NoDup_snd_inj {A B : Type} (l : list (A * B)) (x1 x2 : A) (y : B) :
  NoDup (map snd l) -> (x1, y) ∈ l -> (x2, y) ∈ l -> x1 = x2.
Proof.
  induction l as [|[a b] l IH]; simpl; intros Hnd H1 H2.
  - inversion H1.
  - apply NoDup_cons in Hnd as [Hnotin Hnd].
    apply elem_of_cons in H1 as [H1|H1]; apply elem_of_cons in H2 as [H2|H2].
    + congruence.
    + exfalso. apply Hnotin. injection H1 as -> ->.
      apply list_elem_of_In, in_map_iff. exists (x2, b). split; [reflexivity|].
      apply list_elem_of_In, H2.
    + exfalso. apply Hnotin. injection H2 as -> ->.
      apply list_elem_of_In, in_map_iff. exists (x1, b). split; [reflexivity|].
      apply list_elem_of_In, H1.
    + apply IH; assumption.
Qed.

Lemma registry_wf_ok (reg : gmap string string) : registry_wf reg -> reg_ok reg.
Proof.
  intros [Hne Hnd]. split.
  - intros u e H. exact (Hne u e H).
  - intros u1 u2 e H1 H2.
    apply elem_of_map_to_list in H1. apply elem_of_map_to_list in H2.
    exact (NoDup_snd_inj _ _ _ _ Hnd H1 H2).
Qed.

Lemma remove_stale_lookup (prefix host : string) (reg : gmap string string) (c u : string) :
  reg_ok reg ->
  remove_stale prefix host reg c !! u =
    if decide (u = get_unique_id prefix host c) then None else reg !! u.
Proof.
  intros [Hne Hinj]. unfold remove_stale, async_get_entity_id, async_remove.
  destruct (reg !! get_unique_id prefix host c) as [e|] eqn:He.
  - pose proof (Hne _ _ He) as Hnonempty.
    destruct e as [|ch e]; [congruence|]. simpl.
    case_decide as Hu.
    + subst u. apply map_lookup_filter_None. right. intros x Hx. simpl.
      rewrite He in Hx. injection Hx as <-. intros Hc. apply Hc. reflexivity.
    + destruct (reg !! u) as [e'|] eqn:He'.
      * apply map_lookup_filter_Some. split; [exact He'|]. simpl.
        intros ->. apply Hu. exact (Hinj _ _ _ He' He).
      * apply map_lookup_filter_None. left. exact He'.
  - case_decide as Hu; [subst u; exact He | reflexivity].
Qed.

Lemma remove_stale_ok (prefix host : string) (reg : gmap string string) (c : string) :
  reg_ok reg -> reg_ok (remove_stale prefix host reg c).
Proof.
  intros Hok. pose proof Hok as [Hne Hinj]. split.
  - intros u e. rewrite (remove_stale_lookup _ _ _ _ _ Hok).
    case_decide; [discriminate | apply Hne].
  - intros u1 u2 e. rewrite !(remove_stale_lookup _ _ _ _ _ Hok).
    repeat case_decide; try discriminate. apply Hinj.
Qed.

Lemma remove_stale_loop_lookup (prefix host : string) (l : list string)
    (reg : gmap string string) (u : string) :
  reg_ok reg ->
  foldl (remove_stale prefix host) reg l !! u =
    if decide (Exists (fun c => u = get_unique_id prefix host c) l) then None
    else reg !! u.
Proof.
  revert reg. induction l as [|c l IH]; intros reg Hok; cbn [foldl].
  - destruct (decide (Exists _ [])) as [H|H]; [inversion H | reflexivity].
  - rewrite (IH _ (remove_stale_ok _ _ _ c Hok)).
    rewrite (remove_stale_lookup _ _ _ _ _ Hok).
    destruct (decide (Exists (fun c0 => u = get_unique_id prefix host c0) l)) as [E|NE];
      destruct (decide (u = get_unique_id prefix host c)) as [Hu|Hu];
      destruct (decide (Exists (fun c0 => u = get_unique_id prefix host c0) (c :: l)))
        as [E'|NE']; try reflexivity; exfalso.
    + apply NE'. right. exact E.
    + apply NE'. right. exact E.
    + apply NE'. left. exact Hu.
    + apply Exists_cons in E' as [?|?]; contradiction.
Qed.

Lemma Forall2_impl_elem {A B : Type} (R R' : A -> B -> Prop) (l : list A) (ys : list B) :
  Forall2 R l ys ->
  (forall x y, x ∈ l -> R x y -> R' x y) ->
  Forall2 R' l ys.
Proof.
  induction 1 as [|x y l ys Hxy _ IH]; intros Himp; constructor.
  - apply Himp; [left | exact Hxy].
  - apply IH. intros x' y' Hin. apply Himp. right. exact Hin.
Qed.

Lemma new_clients_resolve (srv : Snapserver.t) (known : gset string) (x : string) :
  x ∈ elements (server_client_ids srv ∖ known) ->
  exists cl, Snapserver.client srv x = Ok cl ∧ Snapclient.identifier cl = x.
Proof.
  intros H. apply elem_of_elements, elem_of_difference in H as [H _].
  apply client_lookup_known, H.
Qed.

(** C5: every run of [_check_entities] succeeds and leaves the known-client
    set equal to the server's current set of client identifiers; the one
    batch handed to [async_add_entities] holds exactly one entity for each
    newly present identifier (current minus known), built on the server's
    client of that identifier; and, for a registry as the host keeps it, the
    entries of the identifiers no longer present (known minus current) are
    gone from the registry while every other entry is kept. *)
Theorem check_entities_sync (prefix : string) (srv : Snapserver.t) (host : string)
    (st : Setup) :
  let ids := server_client_ids srv in
  let known := _known_client_ids st in
  let uid := get_unique_id prefix host in
  let st' := snd (_check_entities prefix srv host st) in
  fst (_check_entities prefix srv host st) = Ok tt ∧
  _known_client_ids st' = ids ∧
  (exists entities,
      added st' = (added st ++ [entities])%list ∧
      map (fun e => Snapclient.identifier (_client e)) entities = elements (ids ∖ known) ∧
      Forall (fun e =>
                Snapserver.client srv (Snapclient.identifier (_client e)) = Ok (_client e) ∧
                _host_id e = host ∧
                _attr_unique_id e = uid (Snapclient.identifier (_client e))) entities) ∧
  (registry_wf (entity_registry st) ->
   (forall c, c ∈ known ∖ ids -> entity_registry st' !! uid c = None) ∧
   (forall c, c ∉ known ∖ ids ->
      entity_registry st' !! uid c = entity_registry st !! uid c) ∧
   (forall u, (forall c, c ∈ known ∖ ids -> u ≠ uid c) ->
      entity_registry st' !! u = entity_registry st !! u)).
Proof.
  intros ids known uid st'. subst st'.
  unfold _check_entities. fold (server_client_ids srv). fold ids. fold known.
  rewrite _update_known_ids_eq.
  destruct (comprehension_total
              (fun c => match Snapserver.client srv c with
                        | Ok cl => Ok (Snapclient.friendly_name cl)
                        | Raise e => Raise e
                        end) (elements (ids ∖ known))) as (names & Hnames & _).
  { intros x Hx. destruct (new_clients_resolve srv known x Hx) as (cl & -> & _). eauto. }
  destruct (comprehension_total
              (fun client_id => match Snapserver.client srv client_id with
                                | Ok cl => Ok (__init__ prefix cl host)
                                | Raise e => Raise e
                                end) (elements (ids ∖ known))) as (entities & Hent & HF).
  { intros x Hx. destruct (new_clients_resolve srv known x Hx) as (cl & -> & _). eauto. }
  rewrite Hnames, Hent. cbn [fst snd _known_client_ids added entity_registry].
  split; [reflexivity|]. split; [reflexivity|]. split.
  - exists entities. split; [reflexivity|].
    assert (Hall : Forall2 (fun x e =>
                      Snapclient.identifier (_client e) = x ∧
                      Snapserver.client srv x = Ok (_client e) ∧
                      _host_id e = host ∧
                      _attr_unique_id e = uid x) (elements (ids ∖ known)) entities).
    { apply (Forall2_impl_elem _ _ _ _ HF). intros x e Hxin Hx.
      destruct (new_clients_resolve srv known x Hxin) as (cl & Hcl & Hid).
      rewrite Hcl in Hx. injection Hx as <-. simpl. rewrite Hid. auto. }
    clear HF Hent Hnames. split.
    + induction Hall as [|x e l es (Hid & _) _ IH]; [reflexivity|].
      simpl. rewrite Hid, IH. reflexivity.
    + induction Hall as [|x e l es (Hid & Hc & Hh & Hu) _ IH]; constructor.
      * rewrite Hid. auto.
      * exact IH.
  - intros Hwf. apply registry_wf_ok in Hwf.
    assert (Hex : forall u, Exists (fun c => u = uid c) (elements (known ∖ ids)) <->
                            exists c, c ∈ known ∖ ids ∧ u = uid c).
    { intros u. rewrite Exists_exists. split; intros (c & Hc & Hu); exists c; split; auto;
        apply elem_of_elements; exact Hc. }
    split_and!.
    + intros c Hc. rewrite (remove_stale_loop_lookup _ _ _ _ _ Hwf).
      rewrite decide_True; [reflexivity|]. apply Hex. eauto.
    + intros c Hc. rewrite (remove_stale_loop_lookup _ _ _ _ _ Hwf).
      rewrite decide_False; [reflexivity|]. intros (c' & Hc' & Heq)%Hex.
      apply get_unique_id_inj in Heq. subst c'. contradiction.
    + intros u Hu. rewrite (remove_stale_loop_lookup _ _ _ _ _ Hwf).
      rewrite decide_False; [reflexivity|]. intros (c' & Hc' & Heq)%Hex.
      exact (Hu c' Hc' Heq).
Qed.

Lemma check_entities_sync_witness :
  let st' := snd (_check_entities "snapcast_client_" sample_server "host:1705" sample_setup) in
  _known_client_ids st' = server_client_ids sample_server ∧
  entity_registry st' !! get_unique_id "snapcast_client_" "host:1705" "C9" = None ∧
  entity_registry st' !! get_unique_id "snapcast_client_" "host:1705" "C1" =
    Some "media_player.kitchen".
Proof.
  intros st'.
  destruct (check_entities_sync "snapcast_client_" sample_server "host:1705" sample_setup)
    as (_ & Hknown & _ & Hreg).
  destruct Hreg as (Hgone & Hkept & _).
  { split; apply (bool_decide_unpack _); vm_compute; exact I. }
  split; [exact Hknown|]. split.
  - apply Hgone. apply (bool_decide_unpack _). vm_compute. exact I.
  - rewrite Hkept; [reflexivity|]. apply (bool_decide_unpack _). vm_compute. exact I.
Defined.

(** ** Further properties of the set-up *)

(** The outcome of one run, written out. *)
Lemma _check_entities_run (prefix : string) (srv : Snapserver.t) (host : string) (st : Setup) :
  exists entities,
    _check_entities prefix srv host st =
      (Ok tt,
       mkSetup (server_client_ids srv)
         (foldl (remove_stale prefix host) (entity_registry st)
            (elements (_known_client_ids st ∖ server_client_ids srv)))
         (added st ++ [entities])) ∧
    Forall2 (fun x e => exists cl, Snapserver.client srv x = Ok cl ∧
                                   Snapclient.identifier cl = x ∧
                                   e = __init__ prefix cl host)
      (elements (server_client_ids srv ∖ _known_client_ids st)) entities.
Proof.
  unfold _check_entities. fold (server_client_ids srv).
  rewrite _update_known_ids_eq.
  set (ids := server_client_ids srv). set (known := _known_client_ids st).
  destruct (comprehension_total
              (fun c => match Snapserver.client srv c with
                        | Ok cl => Ok (Snapclient.friendly_name cl)
                        | Raise e => Raise e
                        end) (elements (ids ∖ known))) as (names & Hnames & _).
  { intros x Hx. destruct (new_clients_resolve srv known x Hx) as (cl & -> & _). eauto. }
  destruct (comprehension_total
              (fun client_id => match Snapserver.client srv client_id with
                                | Ok cl => Ok (__init__ prefix cl host)
                                | Raise e => Raise e
                                end) (elements (ids ∖ known))) as (entities & Hent & HF).
  { intros x Hx. destruct (new_clients_resolve srv known x Hx) as (cl & -> & _). eauto. }
  rewrite Hnames, Hent. exists entities. split; [reflexivity|].
  apply (Forall2_impl_elem _ _ _ _ HF). intros x e Hxin Hx.
  destruct (new_clients_resolve srv known x Hxin) as (cl & Hcl & Hid).
  rewrite Hcl in Hx. injection Hx as <-. eauto.
Qed.

Lemma remove_stale_shrinks (prefix host : string) (reg : gmap string string) (c u e : string) :
  remove_stale prefix host reg c !! u = Some e -> reg !! u = Some e.
Proof.
  unfold remove_stale, async_get_entity_id, async_remove.
  destruct (reg !! get_unique_id prefix host c) as [e0|]; [|auto].
  destruct (str_truthy e0); [|auto].
  apply map_lookup_filter_Some_1_1.
Qed.

Lemma remove_stale_loop_shrinks (prefix host : string) (l : list string)
    (reg : gmap string string) (u e : string) :
  foldl (remove_stale prefix host) reg l !! u = Some e -> reg !! u = Some e.
Proof.
  revert reg. induction l as [|c l IH]; intros reg; cbn [foldl]; [auto|].
  intros H. apply IH in H. exact (remove_stale_shrinks _ _ _ _ _ _ H).
Qed.

(** X1: running [_check_entities] a second time against an unchanged server
    succeeds, hands an empty batch to [async_add_entities] and leaves the
    known-client set and the registry as the first run left them. *)
Theorem check_entities_again_is_noop (prefix : string) (srv : Snapserver.t) (host : string)
    (st : Setup) :
  let st1 := snd (_check_entities prefix srv host st) in
  _check_entities prefix srv host st1 =
    (Ok tt, mkSetup (_known_client_ids st1) (entity_registry st1) (added st1 ++ [[]])).
Proof.
  intros st1. subst st1.
  destruct (_check_entities_run prefix srv host st) as (es & -> & _).
  cbn [snd].
  match goal with |- _check_entities _ _ _ ?s = _ => 
    destruct (_check_entities_run prefix srv host s) as (es' & -> & HF) end.
  cbn [_known_client_ids entity_registry added] in *.
  rewrite difference_diag_L in *. rewrite elements_empty in *.
  inversion HF. subst. reflexivity.
Qed.

Theorem check_entities_registry_shrinks (prefix : string) (srv : Snapserver.t)
    (host : string) (st : Setup) (u e : string) :
  entity_registry (snd (_check_entities prefix srv host st)) !! u = Some e ->
  entity_registry st !! u = Some e.
Proof.
  destruct (_check_entities_run prefix srv host st) as (es & -> & _).
  cbn [snd entity_registry]. apply remove_stale_loop_shrinks.
Qed.

Lemma remove_stale_removed (prefix host : string) (reg : gmap string string) (c u e : string) :
  reg !! u = Some e ->
  remove_stale prefix host reg c !! u = None ->
  reg !! get_unique_id prefix host c = Some e.
Proof.
  unfold remove_stale, async_get_entity_id, async_remove. intros Hu.
  destruct (reg !! get_unique_id prefix host c) as [e0|]; [|congruence].
  destruct (str_truthy e0); [|congruence].
  intros [H|H]%map_lookup_filter_None; [congruence|].
  specialize (H e Hu). simpl in H.
  destruct (decide (e = e0)) as [->|Hne]; [reflexivity|]. contradiction.
Qed.

Lemma remove_stale_loop_removed (prefix host : string) (l : list string)
    (reg : gmap string string) (u e : string) :
  reg !! u = Some e ->
  foldl (remove_stale prefix host) reg l !! u = None ->
  exists c, c ∈ l ∧ reg !! get_unique_id prefix host c = Some e.
Proof.
  revert reg. induction l as [|c l IH]; intros reg Hu; cbn [foldl]; [congruence|].
  intros Hnone.
  destruct (remove_stale prefix host reg c !! u) as [e'|] eqn:Hstep.
  - pose proof (remove_stale_shrinks _ _ _ _ _ _ Hstep) as Hsame.
    assert (e' = e) as -> by congruence.
    destruct (IH _ Hstep Hnone) as (c' & Hin & Hc').
    exists c'. split; [right; exact Hin|].
    exact (remove_stale_shrinks _ _ _ _ _ _ Hc').
  - exists c. split; [left|]. exact (remove_stale_removed _ _ _ _ _ _ Hu Hstep).
Qed.

(** X2: [_check_entities] never adds or rewrites a registry entry, and every
    entry it drops carries the entity id registered for some identifier that
    is known but no longer on the server.  No assumption on the registry. *)
Theorem check_entities_registry_only_drops_stale (prefix : string) (srv : Snapserver.t)
    (host : string) (st : Setup) (u e : string) :
  let reg' := entity_registry (snd (_check_entities prefix srv host st)) in
  (reg' !! u = Some e -> entity_registry st !! u = Some e) ∧
  (entity_registry st !! u = Some e -> reg' !! u = None ->
   exists c, c ∈ _known_client_ids st ∖ server_client_ids srv ∧
             entity_registry st !! get_unique_id prefix host c = Some e).
Proof.
  intros reg'. subst reg'.
  destruct (_check_entities_run prefix srv host st) as (es & -> & _).
  cbn [snd entity_registry]. split.
  - apply remove_stale_loop_shrinks.
  - intros Hu Hnone.
    destruct (remove_stale_loop_removed _ _ _ _ _ _ Hu Hnone) as (c & Hc & He).
    exists c. split; [apply elem_of_elements, Hc | exact He].
Qed.

Lemma Forall2_map_eq {A B C : Type} (f : A -> C) (g : B -> C) (l : list A) (k : list B) :
  Forall2 (fun x y => g y = f x) l k -> map g k = map f l.
Proof.
  induction 1 as [|x y l k H _ IH]; [reflexivity|]. simpl. rewrite H, IH. reflexivity.
Qed.

Lemma NoDup_map_unique_id (prefix host : string) (l : list string) :
  NoDup l -> NoDup (map (get_unique_id prefix host) l).
Proof.
  induction 1 as [|x l Hx _ IH]; simpl; constructor; [|exact IH].
  intros (y & Heq & Hy)%list_elem_of_In%in_map_iff.
  apply get_unique_id_inj in Heq. subst y. apply Hx, list_elem_of_In, Hy.
Qed.

(** X3: the entities of the batch added by one run carry the unique ids of
    the newly present identifiers, and these unique ids are pairwise
    distinct. *)
Theorem added_batch_unique_ids_distinct (prefix : string) (srv : Snapserver.t)
    (host : string) (st : Setup) :
  exists entities,
    added (snd (_check_entities prefix srv host st)) = (added st ++ [entities])%list ∧
    map _attr_unique_id entities =
      map (get_unique_id prefix host)
        (elements (server_client_ids srv ∖ _known_client_ids st)) ∧
    NoDup (map _attr_unique_id entities).
Proof.
  destruct (_check_entities_run prefix srv host st) as (es & -> & HF).
  exists es. split; [reflexivity|].
  assert (Hmap : map _attr_unique_id es =
                 map (get_unique_id prefix host)
                   (elements (server_client_ids srv ∖ _known_client_ids st))).
  { apply Forall2_map_eq. apply (Forall2_impl _ _ _ _ HF).
    intros x e (cl & _ & Hid & ->). simpl. rewrite Hid. reflexivity. }
  split; [exact Hmap|].
  rewrite Hmap. apply NoDup_map_unique_id, NoDup_elements.
Qed.

(** X4: [get_unique_id] joins host and identifier with "_" and so does not
    separate them: moving a part "_i" from the end of the host to the front
    of the identifier gives the same unique id. *)
Theorem get_unique_id_host_id_collision (prefix h i j : string) :
  get_unique_id prefix (h +:+ "_" +:+ i) j = get_unique_id prefix h (i +:+ "_" +:+ j).
Proof.
  unfold get_unique_id.
  assert (Hassoc : forall a b c : string, (a +:+ b) +:+ c = a +:+ (b +:+ c)).
  { intros a b c. induction a as [|ch a IH]; [reflexivity|].
    change (String ch ((a +:+ b) +:+ c) = String ch (a +:+ (b +:+ c))).
    rewrite IH. reflexivity. }
  rewrite !Hassoc. reflexivity.
Qed.

(** X5: setting up a config entry registers the three services and, through
    the first run of [_check_entities], adds one entity for each distinct
    client identifier of the server, each with host id "host:port" and unique
    id prefix + host id + "_" + identifier; the first run removes nothing
    from the cleared registry. *)
Theorem async_setup_entry_first_run (prefix : string) (srv : Snapserver.t)
    (host : string) (port : Z)
    (clear : gmap string string -> gmap string string) (reg : gmap string string) :
  exists entities,
    async_setup_entry prefix srv host port clear reg =
      (register_services,
       (Ok tt, mkSetup (server_client_ids srv) (clear reg) [entities])) ∧
    map identifier entities = elements (server_client_ids srv) ∧
    Forall (fun e => _host_id e = host +:+ ":" +:+ pretty port ∧
                     _attr_unique_id e =
                       prefix +:+ (host +:+ ":" +:+ pretty port) +:+ "_" +:+ identifier e ∧
                     Snapserver.client srv (identifier e) = Ok (_client e)) entities.
Proof.
  unfold async_setup_entry.
  destruct (_check_entities_run prefix srv (host +:+ ":" +:+ pretty port)
              (mkSetup ∅ (clear reg) [])) as (es & -> & HF).
  cbn [_known_client_ids entity_registry added] in *.
  rewrite difference_empty_L in HF.
  rewrite empty_difference_L, elements_empty. cbn [foldl].
  exists es. split; [reflexivity|]. split.
  - transitivity (map (fun x : string => x) (elements (server_client_ids srv)));
      [|apply map_id].
    apply Forall2_map_eq. apply (Forall2_impl _ _ _ _ HF).
    intros x e (cl & _ & Hid & ->). exact Hid.
  - induction HF as [|x e l k (cl & Hcl & Hid & ->) _ IH]; constructor; [|exact IH].
    unfold identifier. simpl. rewrite Hid. auto.
Qed.

(** ** Further properties of the entity *)

(** X6: once [_check_entities] has run, [group_members] no longer lists the
    entity that was registered for a client that left the server, even when
    the group still names that client. *)
Theorem group_members_after_sync (prefix : string) (srv : Snapserver.t) (st : Setup)
    (w : World) (c e : string) :
  registry_wf (entity_registry st) ->
  c ∈ _known_client_ids st ∖ server_client_ids srv ->
  entity_registry st !! get_unique_id prefix (_host_id (self w)) c = Some e ->
  e ∉ group_members prefix
        (entity_registry (snd (_check_entities prefix srv (_host_id (self w)) st))) w.
Proof.
  intros Hwf Hc He Hin. apply registry_wf_ok in Hwf.
  destruct (_check_entities_run prefix srv (_host_id (self w)) st) as (es & Hrun & _).
  rewrite Hrun in Hin. cbn [snd entity_registry] in Hin.
  unfold group_members, async_get_entity_id in Hin.
  apply list_elem_of_omap in Hin as (c' & _ & Hc').
  destruct (foldl _ _ _ !! get_unique_id prefix (_host_id (self w)) c') as [e'|] eqn:Hl;
    [|discriminate].
  destruct (str_truthy e'); [|discriminate]. injection Hc' as ->.
  pose proof (remove_stale_loop_shrinks _ _ _ _ _ _ Hl) as Hold.
  destruct Hwf as [Hne Hinj].
  pose proof (Hinj _ _ _ Hold He) as Huid.
  rewrite Huid in Hl.
  rewrite (remove_stale_loop_lookup _ _ _ _ _ (conj Hne Hinj)) in Hl.
  rewrite decide_True in Hl; [discriminate|].
  apply Exists_exists. exists c. split; [apply elem_of_elements, Hc | reflexivity].
Qed.

(** X7: for a resolved stream [media_artist] and [media_album_artist] return
    None when nothing is stored under the key and otherwise index the stored
    value with [0]: an empty list raises IndexError, a stored None raises
    TypeError, and a plain string yields its first character. *)
Theorem media_artist_edges (w : World) (s : Snapstream.t) :
  Snapserver.stream (server w) (source w) = Ok s ->
  let md := Snapstream.metadata s in
  media_artist w =
    match stored md "artist" with
    | Some v => subscript0 v
    | None => Ok VNone
    end ∧
  media_album_artist w =
    match stored md "albumArtist" with
    | Some v => subscript0 v
    | None => Ok VNone
    end ∧
  (stored md "artist" = Some (VList []) -> media_artist w = Raise IndexError) ∧
  (stored md "artist" = Some VNone -> media_artist w = Raise TypeError) ∧
  (forall a rest, stored md "artist" = Some (VStr (String a rest)) ->
     media_artist w = Ok (VStr (String a EmptyString))).
Proof.
  intros Hs md. unfold media_artist, media_album_artist.
  rewrite !(_get_metadata_resolved _ _ w s Hs). fold md.
  split_and!.
  - destruct (stored md "artist"); reflexivity.
  - destruct (stored md "albumArtist"); reflexivity.
  - intros ->. reflexivity.
  - intros ->. reflexivity.
  - intros a rest ->. reflexivity.
Qed.

(** X8: when the group's stream identifier does not resolve on the server,
    every media accessor raises the error of the lookup; none of them
    falls back to a default. *)
Theorem media_accessors_unresolved_stream (w : World) (e : exn) :
  Snapserver.stream (server w) (source w) = Raise e ->
  media_title w = Raise e ∧ media_image_url w = Raise e ∧
  media_artist w = Raise e ∧ media_album_name w = Raise e ∧
  media_album_artist w = Raise e ∧ media_track w = Raise e ∧
  media_duration w = Raise e ∧ media_position w = Raise e.
Proof.
  intros H. unfold source in H.
  unfold media_title, media_image_url, media_artist, media_album_name,
    media_album_artist, media_track, media_duration, media_position, _get_metadata.
  rewrite H. split_and!; reflexivity.
Qed.

(** X9: [state] is STANDBY exactly when the client is disconnected, so an
    available entity is never in STANDBY; and [state] is never OFF, ON,
    PAUSED or BUFFERING. *)
Theorem state_standby_iff_disconnected (w : World) :
  (state w = Some STANDBY <-> Snapclient.connected (_client (self w)) = false) ∧
  (forall super_available, available super_available w = true -> state w ≠ Some STANDBY) ∧
  state w ≠ Some OFF ∧ state w ≠ Some ON ∧ state w ≠ Some PAUSED ∧
  state w ≠ Some BUFFERING.
Proof.
  unfold available, state.
  destruct (Snapclient.connected (_client (self w))).
  - destruct (is_volume_muted w || Snapgroup.muted (_current_group w));
      [|rewrite STREAM_STATUS_lookup;
        generalize (Snapgroup.stream_status (_current_group w)); intros k;
        destruct (String.eqb k "playing"), (String.eqb k "idle"), (String.eqb k "unknown")];
      (split_and!; [split; intros; discriminate | intros; discriminate | discriminate ..]).
  - split_and!; [split; reflexivity | | discriminate ..].
    intros sa H. rewrite andb_false_r in H. discriminate.
Qed.

(** X10: [async_mute_volume] sends one mute request and writes the state
    once; afterwards [is_volume_muted] is the requested flag, a connected
    client that was muted is IDLE whatever its stream does, and a connected
    client that was unmuted has the state of the otherwise unchanged,
    unmuted client. *)
Theorem async_mute_volume_state (mute : bool) (w : World) :
  let w' := snd (async_mute_volume mute w) in
  fst (async_mute_volume mute w) = Ok tt ∧
  sent w' = (sent w ++ [ReqSetMuted (Snapclient.identifier (_client (self w))) mute])%list ∧
  ha_writes w' = S (ha_writes w) ∧
  is_volume_muted w' = mute ∧
  state w' =
    (if Snapclient.connected (_client (self w)) then
       if mute then Some IDLE else state (set_client (with_muted false) w)
     else Some STANDBY).
Proof.
  cbv zeta. split_and!; try reflexivity.
  unfold state, is_volume_muted, _current_group. simpl.
  destruct (Snapclient.connected (_client (self w))); [|reflexivity].
  destruct mute; reflexivity.
Qed.

Lemma streams_by_name_from_server (srv : Snapserver.t) (n : string) (s : Snapstream.t) :
  streams_by_name srv !! n = Some s -> In s (Snapserver.streams srv) ∧ Snapstream.name s = n.
Proof.
  unfold streams_by_name.
  assert (Hgen : forall (l : list Snapstream.t) (m : gmap string Snapstream.t),
             (forall k x, m !! k = Some x -> In x (Snapserver.streams srv) ∧ Snapstream.name x = k) ->
             (forall x, In x l -> In x (Snapserver.streams srv)) ->
             foldl (fun m s => <[Snapstream.name s := s]> m) m l !! n = Some s ->
             In s (Snapserver.streams srv) ∧ Snapstream.name s = n).
  { induction l as [|x l IH]; intros m Hm Hl; cbn [foldl]; [apply Hm|].
    apply IH.
    - intros k y. destruct (decide (Snapstream.name x = k)) as [<-|Hne].
      + rewrite lookup_insert_eq. intros [= <-]. split; [apply Hl; left|]; reflexivity.
      + rewrite lookup_insert_ne by exact Hne. apply Hm.
    - intros y Hy. apply Hl. right. exact Hy. }
  apply Hgen; [|auto]. intros k x. rewrite lookup_empty. discriminate.
Qed.

Lemma stream_lookup_known (srv : Snapserver.t) (s : Snapstream.t) :
  In s (Snapserver.streams srv) ->
  exists s', Snapserver.stream srv (Snapstream.identifier s) = Ok s' ∧
             Snapstream.identifier s' = Snapstream.identifier s.
Proof.
  unfold Snapserver.stream. intros Hin.
  destruct (find _ _) as [s'|] eqn:Hf.
  - exists s'. split; [reflexivity|].
    apply find_some in Hf. destruct Hf as [_ Hf]. apply String.eqb_eq, Hf.
  - exfalso. pose proof (find_none _ _ Hf s Hin) as Hn. simpl in Hn.
    rewrite String.eqb_refl in Hn. discriminate.
Qed.

(** X12: selecting a source that [source_list] offers succeeds, sends one
    set-stream request with the identifier of the stream of that name, makes
    [source] that identifier and writes the state once. *)
Theorem async_select_source_listed (w : World) (n : string) :
  n ∈ source_list w ->
  exists s,
    streams_by_name (server w) !! n = Some s ∧
    let w' := snd (async_select_source n w) in
    fst (async_select_source n w) = Ok tt ∧
    source w' = Snapstream.identifier s ∧
    sent w' = (sent w ++ [ReqSetStream (Snapgroup.identifier (_current_group w))
                            (Snapstream.identifier s)])%list ∧
    ha_writes w' = S (ha_writes w).
Proof.
  unfold source_list. intros Hin.
  apply list_elem_of_In, in_map_iff in Hin as ([k s] & Hk & Hin). simpl in Hk. subst k.
  apply list_elem_of_In, elem_of_map_to_list in Hin.
  exists s. split; [exact Hin|]. cbv zeta.
  destruct (streams_by_name_from_server _ _ _ Hin) as [Hs _].
  destruct (stream_lookup_known _ _ Hs) as (s' & Hlook & _).
  unfold async_select_source, bind, get. cbv beta iota. rewrite Hin.
  unfold group_set_stream, bind, get, lift. cbv beta iota. rewrite Hlook.
  split_and!; reflexivity.
Qed.

Lemma source_list_keys (w : World) (n : string) :
  n ∈ source_list w <-> is_Some (streams_by_name (server w) !! n).
Proof.
  unfold source_list. split.
  - intros Hin. apply list_elem_of_In, in_map_iff in Hin as ([k s] & Hk & Hin).
    simpl in Hk. subst k. apply list_elem_of_In, elem_of_map_to_list in Hin. eauto.
  - intros [s Hs]. apply list_elem_of_In, in_map_iff. exists (n, s).
    split; [reflexivity|]. apply list_elem_of_In, elem_of_map_to_list, Hs.
Qed.







Lemma py_round_near (x : Q) (z : Z) :
  (inject_Z z - (1 # 2) < x)%Q -> (x < inject_Z z + (1 # 2))%Q -> py_round x = z.
Proof.
  intros Hlo Hhi. unfold py_round.
  pose proof (Qfloor_le x) as Hfl.
  pose proof (Qlt_floor x) as Hfu.
  rewrite inject_Z_plus in Hfu. change (inject_Z 1) with 1%Q in Hfu.
  assert (Hle : Qfloor x <= z).
  { destruct (Z_le_gt_dec (Qfloor x) z) as [H|H]; [exact H|exfalso].
    assert (H1 : z + 1 <= Qfloor x) by lia.
    rewrite Zle_Qle in H1. rewrite inject_Z_plus in H1.
    change (inject_Z 1) with 1%Q in H1. lra. }
  assert (Hge : z - 1 <= Qfloor x).
  { destruct (Z_le_gt_dec (z - 1) (Qfloor x)) as [H|H]; [exact H|exfalso].
    assert (H1 : Qfloor x + 2 <= z) by lia.
    rewrite Zle_Qle in H1. rewrite inject_Z_plus in H1.
    change (inject_Z 2) with 2%Q in H1. lra. }
  destruct (Z.eq_dec (Qfloor x) z) as [E|NE].
  - rewrite E in *.
    assert (Hc : Qcompare (x - inject_Z z) (1 # 2) = Lt).
    { change (x - inject_Z z < 1 # 2)%Q. lra. }
    rewrite Hc. reflexivity.
  - assert (E : Qfloor x = z - 1) by lia. rewrite E in *.
    assert (Hi : (inject_Z (z - 1) == inject_Z z - 1)%Q).
    { unfold Z.sub. rewrite inject_Z_plus. reflexivity. }
    assert (Hc : Qcompare (x - inject_Z (z - 1)) (1 # 2) = Gt).
    { apply (proj1 (Qgt_alt _ _)). rewrite Hi. lra. }
    rewrite Hc. lia.
Qed.

Section FloatAccuracy.

(** [fl] rounds a real number to a float: it respects equality, leaves 0
    as it is, and on the range used here is off by at most one part in a
    thousand (a double is off by at most one part in 2^53). *)

Variable fl : Q -> Q.
Hypothesis fl_compat : forall x y : Q, (x == y)%Q -> (fl x == fl y)%Q.
Hypothesis fl_0 : (fl 0 == 0)%Q.
Hypothesis fl_close :
  forall x : Q, (1 # 100 <= x)%Q -> (x <= 101)%Q ->
    (x * (999 # 1000) <= fl x)%Q ∧ (fl x <= x * (1001 # 1000))%Q.

Lemma level_roundtrip (v : Z) :
  0 <= v <= 100 -> py_round (fl (fl (inject_Z v / 100) * 100)) = v.
Proof using fl_compat fl_0 fl_close.
  intros [Hlo Hhi].
  assert (Hnear : (inject_Z v - (1 # 4) <= fl (fl (inject_Z v / 100) * 100))%Q ∧
                  (fl (fl (inject_Z v / 100) * 100) <= inject_Z v + (1 # 4))%Q).
  { destruct (Z.eq_dec v 0) as [->|Hne].
    - assert (H1 : (fl (inject_Z 0 / 100) == 0)%Q).
      { transitivity (fl 0); [apply fl_compat; reflexivity | exact fl_0]. }
      assert (H2 : (fl (fl (inject_Z 0 / 100) * 100) == 0)%Q).
      { transitivity (fl 0); [apply fl_compat; rewrite H1; reflexivity | exact fl_0]. }
      rewrite H2. change (inject_Z 0) with 0%Q. split; lra.
    - assert (Hv1 : (1 <= inject_Z v)%Q).
      { change 1%Q with (inject_Z 1). rewrite <- Zle_Qle. lia. }
      assert (Hv2 : (inject_Z v <= 100)%Q).
      { change 100%Q with (inject_Z 100). rewrite <- Zle_Qle. lia. }
      set (t := (inject_Z v / 100)%Q).
      assert (Ht : (t == inject_Z v * (1 # 100))%Q) by (unfold t; field).
      destruct (fl_close t) as [Ha1 Ha2]; [lra | lra |].
      destruct (fl_close (fl t * 100)%Q) as [Hb1 Hb2]; [lra | lra |].
      split; lra. }
  destruct Hnear as [Hn1 Hn2]. apply py_round_near; lra.
Qed.

(** X11: for a client volume in 0..100, feeding [volume_level] back into
    [async_set_volume_level] succeeds and sends and stores the very same
    volume. *)
Theorem volume_level_roundtrip (w : World) :
  0 <= Snapclient.volume (_client (self w)) <= 100 ->
  let w' := snd (async_set_volume_level fl (volume_level fl w) w) in
  fst (async_set_volume_level fl (volume_level fl w) w) = Ok tt ∧
  Snapclient.volume (_client (self w')) = Snapclient.volume (_client (self w)) ∧
  sent w' = (sent w ++ [ReqSetVolume (Snapclient.identifier (_client (self w)))
                          (Snapclient.volume (_client (self w)))])%list.
Proof using fl_compat fl_0 fl_close.
  intros Hv. cbv zeta.
  unfold async_set_volume_level, volume_level, bind.
  rewrite (level_roundtrip _ Hv).
  rewrite (client_set_volume_in_range _ w Hv).
  split_and!; reflexivity.
Qed.

End FloatAccuracy.

(** ** Concrete instances *)

Lemma check_entities_registry_only_drops_stale_witness :
  entity_registry sample_setup !! get_unique_id "snapcast_client_" "host:1705" "C1" =
    Some "media_player.kitchen" ∧
  exists c, c ∈ _known_client_ids sample_setup ∖ server_client_ids sample_server ∧
            entity_registry sample_setup !! get_unique_id "snapcast_client_" "host:1705" c =
              Some "media_player.attic".
Proof.
  split.
  - apply (check_entities_registry_only_drops_stale "snapcast_client_" sample_server
             "host:1705" sample_setup). vm_compute. reflexivity.
  - apply (check_entities_registry_only_drops_stale "snapcast_client_" sample_server
             "host:1705" sample_setup
             (get_unique_id "snapcast_client_" "host:1705" "C9")).
    + vm_compute. reflexivity.
    + vm_compute. reflexivity.
Defined.

Lemma group_members_after_sync_witness :
  "media_player.attic" ∈ group_members "snapcast_client_" (entity_registry sample_setup)
                           stale_world ∧
  "media_player.attic" ∉
    group_members "snapcast_client_"
      (entity_registry
         (snd (_check_entities "snapcast_client_" sample_server
                 (_host_id (self stale_world)) sample_setup)))
      stale_world.
Proof.
  split.
  - apply (bool_decide_unpack _). vm_compute. exact I.
  - apply (group_members_after_sync "snapcast_client_" sample_server sample_setup
             stale_world "C9" "media_player.attic").
    + split; apply (bool_decide_unpack _); vm_compute; exact I.
    + apply (bool_decide_unpack _). vm_compute. exact I.
    + vm_compute. reflexivity.
Defined.

Lemma media_artist_edges_witness :
  media_artist odd_world = Raise IndexError.
Proof.
  destruct (media_artist_edges odd_world odd_stream eq_refl) as (_ & _ & Hempty & _).
  exact (Hempty eq_refl).
Defined.

Lemma media_accessors_unresolved_stream_witness :
  media_title dangling_world = Raise NotFound ∧
  media_position dangling_world = Raise NotFound.
Proof.
  destruct (media_accessors_unresolved_stream dangling_world NotFound eq_refl)
    as (Ht & _ & _ & _ & _ & _ & _ & Hp).
  split; [exact Ht | exact Hp].
Defined.

Lemma state_standby_iff_disconnected_witness :
  state sample_world ≠ Some STANDBY.
Proof.
  destruct (state_standby_iff_disconnected sample_world) as (_ & Havail & _).
  exact (Havail true eq_refl).
Defined.

Lemma volume_level_roundtrip_witness :
  Snapclient.volume
    (_client (self (snd (async_set_volume_level (fun q => q)
                           (volume_level (fun q => q) sample_world) sample_world)))) = 40.
Proof.
  assert (Hc : forall x y : Q, (x == y)%Q -> (x == y)%Q) by (intros x y H; exact H).
  assert (Hclose : forall x : Q, (1 # 100 <= x)%Q -> (x <= 101)%Q ->
                     (x * (999 # 1000) <= x)%Q ∧ (x <= x * (1001 # 1000))%Q)
    by (intros x H1 H2; split; lra).
  assert (Hv : 0 <= Snapclient.volume (_client (self sample_world)) <= 100)
    by (simpl; lia).
  destruct (volume_level_roundtrip (fun q => q) Hc (Qeq_refl 0) Hclose sample_world Hv)
    as (_ & Hvol & _).
  exact Hvol.
Defined.

Lemma async_select_source_listed_witness :
  exists s,
    streams_by_name (server sample_world) !! "Aux" = Some s ∧
    fst (async_select_source "Aux" sample_world) = Ok tt ∧
    source (snd (async_select_source "Aux" sample_world)) = Snapstream.identifier s.
Proof.
  destruct (async_select_source_listed sample_world "Aux") as (s & Hs & Hok & Hsrc & _).
  { apply (bool_decide_unpack _). vm_compute. exact I. }
  exists s. split_and!; assumption.
Defined.


